(** Shallow embedding of three translation units of mbed-os:

    - platform/Stream.cpp                    (Stream::write, Stream::read)
    - features/netsocket/UDPSocket.cpp       (connect, sendto to an address,
                                              send, recvfrom, recv, accept,
                                              listen)
    - features/netsocket/TLSSocketWrapper.h  (declaration of start_handshake)

    Integers of the C++ code are [Z]; pointers into a buffer are offsets
    ([nat]) from the start of the buffer; nullable pointers are [option].
    Everything the code leaves to another translation unit (the character
    device behind a Stream, the network stack, the event flags, the other
    threads) is an explicit parameter of the model. *)

From Stdlib Require Import ZArith List Bool Lia.
Import ListNotations.
Open Scope Z_scope.

(* ===================================================================== *)
(** * platform/Stream.cpp                                                 *)
(* ===================================================================== *)

(** The pure virtual interface of [mbed::Stream]: [_putc] and [_getc] are
    implemented by the concrete device (a serial port, a display, ...).
    [Device] is the state of that device.  [EOF] is the macro of <stdio.h>,
    and [char_is_signed] tells how the target promotes [char] to [int]. *)
Class StreamImpl := {
  Device : Type;
  _putc : Z -> Device -> Z * Device;
  _getc : Device -> Z * Device;
  EOF : Z;
  char_is_signed : bool
}.

(** A [char] in memory is its byte value, 0..255. *)
Definition int_of_char {I : StreamImpl} (b : Z) : Z :=
  if char_is_signed && (128 <=? b) then b - 256 else b.

Definition char_of_int (c : Z) : Z := c mod 256.

(** [*ptr = c] at offset [ptr] of [buffer]; [None] outside the buffer. *)
Fixpoint store (buffer : list Z) (ptr : nat) (c : Z) : option (list Z) :=
  match buffer, ptr with
  | [], _ => None
  | _ :: tl, O => Some (c :: tl)
  | b :: tl, S p =>
      match store tl p c with
      | Some tl' => Some (b :: tl')
      | None => None
      end
  end.

Section StreamCode.
Context {I : StreamImpl}.

(** The loop of [Stream::write]:
<<
    while (ptr != end) {
        if (_putc( *ptr++ ) == EOF) {
            break;
        }
    }
>>
    [remaining] is [end - ptr].  The result is the final [ptr], as an
    offset.  Reading outside the buffer is undefined: [None]. *)
Fixpoint write_loop (remaining : nat) (buffer : list Z) (ptr : nat)
         (d : Device) : option (nat * Device) :=
  match remaining with
  | O => Some (ptr, d)
  | S k =>
      match nth_error buffer ptr with
      | None => None
      | Some c =>
          let ptr' := S ptr in                       (* *ptr++ *)
          let (r, d') := _putc (int_of_char c) d in
          if r =? EOF then Some (ptr', d')           (* break *)
          else write_loop k buffer ptr' d'
      end
  end.

(** [ssize_t Stream::write(const void *buffer, size_t length)].  The
    [lock()] and [unlock()] around the loop touch neither the buffer nor
    the device. *)
Definition write (buffer : list Z) (length : nat) (d : Device)
  : option (Z * Device) :=
  match write_loop length buffer 0 d with
  | Some (ptr, d') => Some (Z.of_nat ptr, d')       (* ptr - buffer *)
  | None => None
  end.

(** The loop of [Stream::read]:
<<
    while (ptr != end) {
        int c = _getc();
        if (c == EOF) {
            break;
        }
        *ptr++ = c;
    }
>>
*)
Fixpoint read_loop (remaining : nat) (buffer : list Z) (ptr : nat)
         (d : Device) : option (nat * list Z * Device) :=
  match remaining with
  | O => Some (ptr, buffer, d)
  | S k =>
      let (c, d') := _getc d in
      if c =? EOF then Some (ptr, buffer, d')        (* break *)
      else
        match store buffer ptr (char_of_int c) with  (* *ptr++ = c *)
        | None => None
        | Some buffer' => read_loop k buffer' (S ptr) d'
        end
  end.

(** [ssize_t Stream::read(void *buffer, size_t length)]: the result is
    the return value, the buffer afterwards and the device afterwards. *)
Definition read (buffer : list Z) (length : nat) (d : Device)
  : option (Z * list Z * Device) :=
  match read_loop length buffer 0 d with
  | Some (ptr, buffer', d') => Some (Z.of_nat ptr, buffer', d')
  | None => None
  end.

(** Reference count for [write]: how many leading bytes of [bytes] the
    per-character output takes before the first [EOF] result, and whether
    an [EOF] result was met. *)
Fixpoint accepted (bytes : list Z) (d : Device) : nat * bool :=
  match bytes with
  | [] => (O, false)
  | c :: tl =>
      let (r, d') := _putc (int_of_char c) d in
      if r =? EOF then (O, true)
      else let (n, eof) := accepted tl d' in (S n, eof)
  end.

(** Reference count for [read]: the characters the per-character input
    delivers before its first [EOF], at most [n] of them. *)
Fixpoint delivered (n : nat) (d : Device) : list Z :=
  match n with
  | O => []
  | S k =>
      let (c, d') := _getc d in
      if c =? EOF then [] else char_of_int c :: delivered k d'
  end.
End StreamCode.

(** A device that is full: every [_putc] is refused with [EOF], and there
    is nothing to read. *)
Definition full_device : StreamImpl := {|
  Device := unit;
  _putc := fun _ d => (-1, d);
  _getc := fun d => (-1, d);
  EOF := -1;
  char_is_signed := false
|}.

(** A device backed by lists: [_putc] appends to the output while there is
    room ([fst] counts the free cells), [_getc] pops the pending input. *)
Definition list_device : StreamImpl := {|
  Device := nat * list Z * list Z;
  _putc := fun c d =>
    match d with
    | (O, out, inp) => (-1, d)
    | (S room, out, inp) => (c, (room, out ++ [c], inp))
    end;
  _getc := fun d =>
    match d with
    | (room, out, []) => (-1, d)
    | (room, out, c :: inp) => (c, (room, out, inp))
    end;
  EOF := -1;
  char_is_signed := false
|}.


(** ** What [write] and [read] do to the device *)

Section StreamDeviceUse.
Context {I : StreamImpl}.

(** The device after [_putc] has been called on each of [bytes] in turn. *)
Fixpoint fed (bytes : list Z) (d : Device) : Device :=
  match bytes with
  | [] => d
  | c :: tl => fed tl (snd (_putc (int_of_char c) d))
  end.

(** The device after [k] calls of [_getc]. *)
Fixpoint drained (k : nat) (d : Device) : Device :=
  match k with
  | O => d
  | S k' => drained k' (snd (_getc d))
  end.
End StreamDeviceUse.

(** A device that logs what it is given and, like a serial port, returns
    the character it has written; [signed] is the signedness of [char] on
    the target. *)
Definition echo_device (signed : bool) : StreamImpl := {|
  Device := list Z;
  _putc := fun c d => (c, d ++ [c]);
  _getc := fun d => (-1, d);
  EOF := -1;
  char_is_signed := signed
|}.

(** A device that always has room and always has input: [_putc] answers
    0, [_getc] answers the letter A; the state counts the calls. *)
Definition steady_device : StreamImpl := {|
  Device := nat;
  _putc := fun _ d => (0, S d);
  _getc := fun d => (65, S d);
  EOF := -1;
  char_is_signed := false
|}.

(* ===================================================================== *)
(** * features/netsocket/UDPSocket.cpp                                    *)
(* ===================================================================== *)

(** What UDPSocket.cpp takes from headers that are not part of these
    sources: the address class (SocketAddress.h), the error codes
    (nsapi_types.h), the error bit of the event flags (cmsis_os2.h), the
    width of the reader and writer counters (InternetSocket.h) and the
    build option [MBED_CONF_RTOS_PRESENT]. *)
Class Netsocket := {
  SocketAddress : Type;
  addr_bool : SocketAddress -> bool;                  (* operator bool *)
  addr_neq : SocketAddress -> SocketAddress -> bool;  (* operator!=    *)
  addr_default : SocketAddress;                       (* SocketAddress() *)
  NSAPI_ERROR_OK : Z;
  NSAPI_ERROR_WOULD_BLOCK : Z;
  NSAPI_ERROR_UNSUPPORTED : Z;
  NSAPI_ERROR_NO_SOCKET : Z;
  NSAPI_ERROR_NO_ADDRESS : Z;
  osFlagsError : Z;
  counter_bits : Z;
  MBED_CONF_RTOS_PRESENT : bool
}.

(** The states reported to the socket statistics. *)
Inductive socket_state := SOCK_CLOSED | SOCK_OPEN | SOCK_CONNECTED | SOCK_LISTEN.

(** The flags of [_event_flag]. *)
Inductive event_flag := READ_FLAG | WRITE_FLAG | FINISHED_FLAG.

Section UDPSocketCode.
Context {N : Netsocket}.

(** The data members the code of UDPSocket.cpp reads and writes.
    [_socket] is the handle of the stack, [None] when null. *)
Record UDPSocket := {
  _socket : option nat;
  _remote_peer : SocketAddress;
  _timeout : Z;
  _readers : Z;
  _writers : Z;
  _pending : Z
}.

Definition set_remote_peer (a : SocketAddress) (s : UDPSocket) : UDPSocket :=
  {| _socket := _socket s; _remote_peer := a; _timeout := _timeout s;
     _readers := _readers s; _writers := _writers s; _pending := _pending s |}.

Definition set_readers (v : Z) (s : UDPSocket) : UDPSocket :=
  {| _socket := _socket s; _remote_peer := _remote_peer s;
     _timeout := _timeout s;
     _readers := v; _writers := _writers s; _pending := _pending s |}.

Definition set_writers (v : Z) (s : UDPSocket) : UDPSocket :=
  {| _socket := _socket s; _remote_peer := _remote_peer s;
     _timeout := _timeout s;
     _readers := _readers s; _writers := v; _pending := _pending s |}.

Definition set_pending (v : Z) (s : UDPSocket) : UDPSocket :=
  {| _socket := _socket s; _remote_peer := _remote_peer s;
     _timeout := _timeout s;
     _readers := _readers s; _writers := _writers s; _pending := v |}.

(** [!_socket] *)
Definition is_null (p : option nat) : bool :=
  match p with None => true | Some _ => false end.

(** Arithmetic of the counters: unsigned, [counter_bits] wide. *)
Definition wrap (x : Z) : Z := x mod 2 ^ counter_bits.

(** What [_stack->socket_recvfrom] leaves behind: its return value, the
    address it wrote through [address] and the bytes it wrote to the
    buffer ([None]: left untouched). *)
Record recvfrom_result := {
  rf_ret : Z;
  rf_address : option SocketAddress;
  rf_buffer : option (list Z)
}.

(** What happened while the caller was parked in [_event_flag.wait_any]
    with the lock released: the value [wait_any] returned, the time the
    wait took, and what the other threads did to the socket meanwhile. *)
Record parked := {
  wait_flags : Z;
  wait_elapsed : Z;
  others : UDPSocket -> UDPSocket
}.

(** Everything that can be observed of one run, in program order. *)
Inductive Event :=
| EvLock
| EvUnlock
| EvStatsPeer (a : SocketAddress)
| EvStatsState (st : socket_state)
| EvStatsSent (n : Z)
| EvStatsRecv (n : Z)
| EvSendto (h : nat) (a : SocketAddress) (data : list Z) (size : Z) (r : Z)
| EvRecvfrom (h : nat) (size : Z) (r : recvfrom_result)
| EvWait (f : event_flag) (timeout : Z) (flags : Z) (elapsed : Z)
| EvSet (f : event_flag).

(** The surroundings of the socket: the [n]-th call of the stack's
    [socket_sendto] and [socket_recvfrom] and the [n]-th
    [wait_any], each as a function of the arguments it is given. *)
Record Env := {
  socket_sendto : nat -> nat -> SocketAddress -> list Z -> Z -> Z;
  socket_recvfrom : nat -> nat -> Z -> recvfrom_result;
  wait_any : nat -> event_flag -> Z -> parked
}.

(** The waits of a trace, each with the timeout it was given and the
    time it took; the transfers the stack was asked for; the settings of
    the finished flag. *)
Definition waits (tr : list Event) : list (Z * Z) :=
  flat_map (fun e => match e with
                     | EvWait _ timeout _ elapsed => [(timeout, elapsed)]
                     | _ => []
                     end) tr.

Definition total_wait (tr : list Event) : Z :=
  fold_right (fun p acc => snd p + acc) 0 (waits tr).

Definition is_transfer (e : Event) : bool :=
  match e with
  | EvSendto _ _ _ _ _ | EvRecvfrom _ _ _ => true
  | _ => false
  end.

Definition transfers (tr : list Event) : list Event := filter is_transfer tr.

Definition is_set_finished (e : Event) : bool :=
  match e with
  | EvSet FINISHED_FLAG => true
  | _ => false
  end.

Record World := {
  sock : UDPSocket;
  calls_sendto : nat;
  calls_recvfrom : nat;
  calls_wait : nat;
  trace : list Event
}.

(** State and failure: [None] is a run that has not returned when the
    fuel of a loop runs out. *)
Definition M (A : Type) : Type := World -> option (A * World).

Definition ret {A : Type} (a : A) : M A := fun w => Some (a, w).

Definition bind {A B : Type} (m : M A) (k : A -> M B) : M B :=
  fun w => match m w with
           | Some (a, w') => k a w'
           | None => None
           end.

Definition out_of_fuel {A : Type} : M A := fun _ => None.

Definition get : M UDPSocket := fun w => Some (sock w, w).

Definition put (s : UDPSocket) : M unit := fun w =>
  Some (tt, {| sock := s; calls_sendto := calls_sendto w;
               calls_recvfrom := calls_recvfrom w;
               calls_wait := calls_wait w; trace := trace w |}).

Definition emit (e : Event) : M unit := fun w =>
  Some (tt, {| sock := sock w; calls_sendto := calls_sendto w;
               calls_recvfrom := calls_recvfrom w;
               calls_wait := calls_wait w; trace := trace w ++ [e] |}).

(** The events a run from [w] to [w'] added to the trace. *)
Definition events_since (w w' : World) : list Event :=
  skipn (List.length (trace w)) (trace w').
End UDPSocketCode.

Declare Scope udp_scope.
Delimit Scope udp_scope with udp.
Notation "x <- m ;; k" := (bind m (fun x => k))
  (at level 61, m at next level, right associativity) : udp_scope.
Notation "m ;; k" := (bind m (fun _ => k))
  (at level 61, right associativity) : udp_scope.
Open Scope udp_scope.

Section UDPSocketCalls.
Context {N : Netsocket} (env : Env).

(** [_stack->socket_sendto(_socket, address, data, size)] *)
Definition stack_socket_sendto (h : nat) (address : SocketAddress)
           (data : list Z) (size : Z) : M Z := fun w =>
  let r := socket_sendto env (calls_sendto w) h address data size in
  Some (r, {| sock := sock w; calls_sendto := S (calls_sendto w);
              calls_recvfrom := calls_recvfrom w;
              calls_wait := calls_wait w;
              trace := trace w ++ [EvSendto h address data size r] |}).

(** [_stack->socket_recvfrom(_socket, address, buffer, size)] *)
Definition stack_socket_recvfrom (h : nat) (size : Z)
  : M recvfrom_result := fun w =>
  let r := socket_recvfrom env (calls_recvfrom w) h size in
  Some (r, {| sock := sock w; calls_sendto := calls_sendto w;
              calls_recvfrom := S (calls_recvfrom w);
              calls_wait := calls_wait w;
              trace := trace w ++ [EvRecvfrom h size r] |}).

(** [_event_flag.wait_any(flag, timeout)], called with the lock released:
    the other threads run. *)
Definition event_flag_wait_any (f : event_flag) (timeout : Z) : M Z :=
  fun w =>
  let p := wait_any env (calls_wait w) f timeout in
  Some (wait_flags p,
        {| sock := others p (sock w); calls_sendto := calls_sendto w;
           calls_recvfrom := calls_recvfrom w;
           calls_wait := S (calls_wait w);
           trace := trace w ++ [EvWait f timeout (wait_flags p) (wait_elapsed p)] |}).

(** [UDPSocket::connect(const SocketAddress &address)] *)
Definition connect (address : SocketAddress) : M Z :=
  s <- get ;;
  put (set_remote_peer address s) ;;
  emit (EvStatsPeer address) ;;
  emit (EvStatsState SOCK_CONNECTED) ;;
  ret NSAPI_ERROR_OK.

(** The [while (true)] of [UDPSocket::sendto]; the value is [ret] at the
    [break]. *)
Fixpoint sendto_loop (fuel : nat) (address : SocketAddress)
         (data : list Z) (size : Z) : M Z :=
  match fuel with
  | O => out_of_fuel
  | S fuel' =>
      s <- get ;;
      match _socket s with
      | None => ret NSAPI_ERROR_NO_SOCKET
      | Some h =>
          put (set_pending 0 s) ;;
          sent <- stack_socket_sendto h address data size ;;
          if (0 =? _timeout s) || negb (NSAPI_ERROR_WOULD_BLOCK =? sent)
          then
            emit (EvStatsSent sent) ;;
            ret sent
          else
            emit EvUnlock ;;
            if MBED_CONF_RTOS_PRESENT then
              flag <- event_flag_wait_any WRITE_FLAG (_timeout s) ;;
              emit EvLock ;;
              if negb (Z.land flag osFlagsError =? 0)
              then ret NSAPI_ERROR_WOULD_BLOCK          (* Timeout break *)
              else sendto_loop fuel' address data size
            else
              emit EvLock ;;
              sendto_loop fuel' address data size
      end
  end.

(** [UDPSocket::sendto(const SocketAddress &address, const void *data,
    nsapi_size_t size)] *)
Definition sendto (fuel : nat) (address : SocketAddress)
           (data : list Z) (size : Z) : M Z :=
  emit EvLock ;;
  s <- get ;;
  put (set_writers (wrap (_writers s + 1)) s) ;;          (* _writers++ *)
  (if negb (is_null (_socket s)) then
     emit (EvStatsState SOCK_OPEN) ;;
     emit (EvStatsPeer address)
   else ret tt) ;;
  r <- sendto_loop fuel address data size ;;
  s <- get ;;
  put (set_writers (wrap (_writers s - 1)) s) ;;          (* _writers-- *)
  s <- get ;;
  (if is_null (_socket s) || (_writers s =? 0) then
     if MBED_CONF_RTOS_PRESENT then emit (EvSet FINISHED_FLAG) else ret tt
   else ret tt) ;;
  emit EvUnlock ;;
  ret r.

(** [UDPSocket::send(const void *data, nsapi_size_t size)] *)
Definition send (fuel : nat) (data : list Z) (size : Z) : M Z :=
  s <- get ;;
  if negb (addr_bool (_remote_peer s)) then
    ret NSAPI_ERROR_NO_ADDRESS
  else
    sendto fuel (_remote_peer s) data size.

(** The [while (true)] of [UDPSocket::recvfrom].  [address] and [buffer]
    are the objects the two pointers point to; the value is [ret] at the
    [break], with what these two objects then hold. *)
Fixpoint recvfrom_loop (fuel : nat) (address : SocketAddress)
         (buffer : list Z) (size : Z) : M (Z * SocketAddress * list Z) :=
  match fuel with
  | O => out_of_fuel
  | S fuel' =>
      s <- get ;;
      match _socket s with
      | None => ret (NSAPI_ERROR_NO_SOCKET, address, buffer)
      | Some h =>
          put (set_pending 0 s) ;;
          r <- stack_socket_recvfrom h size ;;
          let recv := rf_ret r in
          let address :=
            match rf_address r with Some a => a | None => address end in
          let buffer :=
            match rf_buffer r with Some b => b | None => buffer end in
          (* Filter incomming packets using connected peer address *)
          if (recv >=? 0) && addr_bool (_remote_peer s)
             && addr_neq (_remote_peer s) address
          then recvfrom_loop fuel' address buffer size       (* continue *)
          else
            emit (EvStatsPeer (_remote_peer s)) ;;
            if (0 =? _timeout s) || negb (NSAPI_ERROR_WOULD_BLOCK =? recv)
            then
              emit (EvStatsRecv recv) ;;
              ret (recv, address, buffer)
            else
              emit EvUnlock ;;
              if MBED_CONF_RTOS_PRESENT then
                flag <- event_flag_wait_any READ_FLAG (_timeout s) ;;
                emit EvLock ;;
                if negb (Z.land flag osFlagsError =? 0)
                then ret (NSAPI_ERROR_WOULD_BLOCK, address, buffer)
                else recvfrom_loop fuel' address buffer size
              else
                emit EvLock ;;
                recvfrom_loop fuel' address buffer size
      end
  end.

(** [UDPSocket::recvfrom(SocketAddress *address, void *buffer,
    nsapi_size_t size)].  [address] is [None] for a null pointer; the
    address in the result is the object the loop wrote the source
    address to: the caller's, or the local [ignored]. *)
Definition recvfrom (fuel : nat) (address : option SocketAddress)
           (buffer : list Z) (size : Z) : M (Z * SocketAddress * list Z) :=
  emit EvLock ;;
  let address :=
    match address with Some a => a | None => addr_default end in
  s <- get ;;
  put (set_readers (wrap (_readers s + 1)) s) ;;          (* _readers++ *)
  (if negb (is_null (_socket s)) then emit (EvStatsState SOCK_OPEN)
   else ret tt) ;;
  r <- recvfrom_loop fuel address buffer size ;;
  s <- get ;;
  put (set_readers (wrap (_readers s - 1)) s) ;;          (* _readers-- *)
  s <- get ;;
  (if is_null (_socket s) || (_readers s =? 0) then
     if MBED_CONF_RTOS_PRESENT then emit (EvSet FINISHED_FLAG) else ret tt
   else ret tt) ;;
  emit EvUnlock ;;
  ret r.

(** [UDPSocket::recv(void *buffer, nsapi_size_t size)] *)
Definition recv (fuel : nat) (buffer : list Z) (size : Z)
  : M (Z * SocketAddress * list Z) :=
  recvfrom fuel None buffer size.

(** [UDPSocket::accept(nsapi_error_t *error)]: the returned pointer
    ([None] is NULL) and what [*error] holds afterwards ([None] when
    [error] is a null pointer). *)
Definition accept (error : option Z) : M (option nat * option Z) :=
  ret (None,
       match error with
       | Some _ => Some NSAPI_ERROR_UNSUPPORTED
       | None => None
       end).

(** [UDPSocket::listen(int)] *)
Definition listen (backlog : Z) : M Z := ret NSAPI_ERROR_UNSUPPORTED.
End UDPSocketCalls.

(** ** The worlds a call passes through

    The same steps as above, written as functions from world to world;
    the lemmas [sendto_loop_step], [recvfrom_loop_step], [sendto_run] and
    [recvfrom_run] below show that the code takes exactly these steps. *)
Section UDPSocketWorlds.
Context {N : Netsocket} (env : Env).

Definition after_events (evs : list Event) (w : World) : World :=
  {| sock := sock w; calls_sendto := calls_sendto w;
     calls_recvfrom := calls_recvfrom w; calls_wait := calls_wait w;
     trace := trace w ++ evs |}.

(** [_pending = 0] and the call of [socket_sendto]. *)
Definition after_sendto (h : nat) (address : SocketAddress)
           (data : list Z) (size : Z) (w : World) : World :=
  {| sock := set_pending 0 (sock w);
     calls_sendto := S (calls_sendto w);
     calls_recvfrom := calls_recvfrom w; calls_wait := calls_wait w;
     trace := trace w ++
              [EvSendto h address data size
                 (socket_sendto env (calls_sendto w) h address data size)] |}.

(** [_pending = 0] and the call of [socket_recvfrom]. *)
Definition after_recvfrom (h : nat) (size : Z) (w : World) : World :=
  {| sock := set_pending 0 (sock w);
     calls_sendto := calls_sendto w;
     calls_recvfrom := S (calls_recvfrom w); calls_wait := calls_wait w;
     trace := trace w ++
              [EvRecvfrom h size
                 (socket_recvfrom env (calls_recvfrom w) h size)] |}.

(** The wait the caller is about to enter in [w]. *)
Definition next_wait (f : event_flag) (w : World) : parked :=
  wait_any env (calls_wait w) f (_timeout (sock w)).

(** Unlock, wait for [f], lock again. *)
Definition after_wait (f : event_flag) (w : World) : World :=
  {| sock := others (next_wait f w) (sock w);
     calls_sendto := calls_sendto w;
     calls_recvfrom := calls_recvfrom w; calls_wait := S (calls_wait w);
     trace := trace w ++
              [EvUnlock;
               EvWait f (_timeout (sock w)) (wait_flags (next_wait f w))
                      (wait_elapsed (next_wait f w));
               EvLock] |}.

(** Entry of [sendto]: lock, [_writers++], statistics. *)
Definition sendto_enter (address : SocketAddress) (w : World) : World :=
  {| sock := set_writers (wrap (_writers (sock w) + 1)) (sock w);
     calls_sendto := calls_sendto w;
     calls_recvfrom := calls_recvfrom w; calls_wait := calls_wait w;
     trace := trace w ++
              EvLock :: (if is_null (_socket (sock w)) then []
                         else [EvStatsState SOCK_OPEN; EvStatsPeer address]) |}.

(** Entry of [recvfrom]: lock, [_readers++], statistics. *)
Definition recvfrom_enter (w : World) : World :=
  {| sock := set_readers (wrap (_readers (sock w) + 1)) (sock w);
     calls_sendto := calls_sendto w;
     calls_recvfrom := calls_recvfrom w; calls_wait := calls_wait w;
     trace := trace w ++
              EvLock :: (if is_null (_socket (sock w)) then []
                         else [EvStatsState SOCK_OPEN]) |}.

(** The events of the last lines of [sendto] and [recvfrom], given the
    handle and the counter after its decrement. *)
Definition leave_events (handle : option nat) (counter : Z) : list Event :=
  (if is_null handle || (counter =? 0)
   then if MBED_CONF_RTOS_PRESENT then [EvSet FINISHED_FLAG] else []
   else []) ++ [EvUnlock].

(** Exit of [sendto]: [_writers--], finished flag, unlock. *)
Definition sendto_leave (w : World) : World :=
  {| sock := set_writers (wrap (_writers (sock w) - 1)) (sock w);
     calls_sendto := calls_sendto w;
     calls_recvfrom := calls_recvfrom w; calls_wait := calls_wait w;
     trace := trace w ++
              leave_events (_socket (sock w))
                           (wrap (_writers (sock w) - 1)) |}.

(** Exit of [recvfrom]: [_readers--], finished flag, unlock. *)
Definition recvfrom_leave (w : World) : World :=
  {| sock := set_readers (wrap (_readers (sock w) - 1)) (sock w);
     calls_sendto := calls_sendto w;
     calls_recvfrom := calls_recvfrom w; calls_wait := calls_wait w;
     trace := trace w ++
              leave_events (_socket (sock w))
                           (wrap (_readers (sock w) - 1)) |}.
End UDPSocketWorlds.

Section UDPSocketSteps.
Context {N : Netsocket} (env : Env).

Definition is_stats (e : Event) : bool :=
  match e with
  | EvStatsPeer _ | EvStatsState _ | EvStatsSent _ | EvStatsRecv _ => true
  | _ => false
  end.

(** [steps w evs w']: from [w] the turns of a loop lead to [w'], adding
    the events [evs] to the trace.  These are the only steps the two
    loops are made of: a transfer, a report to the statistics, a wait
    with the lock released, and (without RTOS) releasing and taking the
    lock at once. *)
Inductive steps : World -> list Event -> World -> Prop :=
| steps_done w : steps w [] w
| steps_sendto w h address data size evs w' :
    steps (after_sendto env h address data size w) evs w' ->
    steps w (EvSendto h address data size
               (socket_sendto env (calls_sendto w) h address data size)
             :: evs) w'
| steps_recvfrom w h size evs w' :
    steps (after_recvfrom env h size w) evs w' ->
    steps w (EvRecvfrom h size (socket_recvfrom env (calls_recvfrom w) h size)
             :: evs) w'
| steps_stats w e evs w' :
    is_stats e = true ->
    steps (after_events [e] w) evs w' ->
    steps w (e :: evs) w'
| steps_wait w f evs w' :
    steps (after_wait env f w) evs w' ->
    steps w (EvUnlock
             :: EvWait f (_timeout (sock w)) (wait_flags (next_wait env f w))
                       (wait_elapsed (next_wait env f w))
             :: EvLock :: evs) w'
| steps_spin w evs w' :
    steps (after_events [EvUnlock; EvLock] w) evs w' ->
    steps w (EvUnlock :: EvLock :: evs) w'.

(** Other threads never call [set_timeout] on this socket while the
    caller is parked. *)
Definition timeout_stable : Prop :=
  forall n f t s, _timeout (others (wait_any env n f t) s) = _timeout s.

(** Other threads leave the two counters as they found them while the
    caller is parked: none of them enters or leaves a call. *)
Definition counters_quiet : Prop :=
  forall n f t s,
    _readers (others (wait_any env n f t) s) = _readers s /\
    _writers (others (wait_any env n f t) s) = _writers s.

(** The event flags keep to their timeout: no wait takes longer than the
    time it was given. *)
Definition waits_keep_timeout : Prop :=
  forall n f t, 0 <= t -> 0 <= wait_elapsed (wait_any env n f t) <= t.
End UDPSocketSteps.

(** ** The lock, the waits and the name resolution *)

Section UDPSocketMore.
Context {N : Netsocket} (env : Env).


(** The values the waits of a trace returned, in order. *)
Definition wait_flag_words (tr : list Event) : list Z :=
  flat_map (fun e => match e with
                     | EvWait _ _ flags _ => [flags]
                     | _ => []
                     end) tr.

(** What a call of [sendto] may do besides locking, unlocking and
    reporting to the statistics: ask the stack to send this very datagram,
    wait for [WRITE_FLAG], set [FINISHED_FLAG]. *)
Definition sendto_event (address : SocketAddress) (data : list Z) (size : Z)
           (e : Event) : Prop :=
  match e with
  | EvSendto _ a d s _ => a = address /\ d = data /\ s = size
  | EvRecvfrom _ _ _ => False
  | EvWait f _ _ _ => f = WRITE_FLAG
  | EvSet f => f = FINISHED_FLAG
  | _ => True
  end.

(** The same for [recvfrom]. *)
Definition recvfrom_event (size : Z) (e : Event) : Prop :=
  match e with
  | EvSendto _ _ _ _ _ => False
  | EvRecvfrom _ s _ => s = size
  | EvWait f _ _ _ => f = READ_FLAG
  | EvSet f => f = FINISHED_FLAG
  | _ => True
  end.

(** No other thread touches the socket while the caller is parked. *)
Definition nobody_else : Prop :=
  forall n f t s, others (wait_any env n f t) s = s.

(** [UDPSocket::sendto(const char *host, uint16_t port, const void *data,
    nsapi_size_t size)].  [gethostbyname] is the stack's resolver: its
    return value and the address it wrote ([None]: the address is left as
    constructed); [set_port] is [SocketAddress::set_port]; the error code
    is the one of nsapi_types.h.  The resolver is called before the lock
    is taken. *)
Definition sendto_host
           (gethostbyname : list Z -> Z * option SocketAddress)
           (set_port : SocketAddress -> Z -> SocketAddress)
           (NSAPI_ERROR_DNS_FAILURE : Z)
           (fuel : nat) (host : list Z) (port : Z)
           (data : list Z) (size : Z) : M Z :=
  let (err, written) := gethostbyname host in
  let address := match written with Some a => a | None => addr_default end in
  if negb (err =? 0) then
    ret NSAPI_ERROR_DNS_FAILURE
  else
    (* sendto is thread safe *)
    sendto env fuel (set_port address port) data size.
End UDPSocketMore.

Section UDPSocketFlagUse.
Context {N : Netsocket}.

(** The events that are operations on [_event_flag]. *)
Definition uses_event_flag (e : Event) : bool :=
  match e with
  | EvWait _ _ _ _ | EvSet _ => true
  | _ => false
  end.
End UDPSocketFlagUse.

(* ===================================================================== *)
(** * A concrete target                                                   *)
(* ===================================================================== *)

(** The values of mbed-os 5 on a Cortex-M target with the RTOS: addresses
    are plain numbers here, 0 being the address that is not set. *)
Definition cortex_m_rtos : Netsocket := {|
  SocketAddress := Z;
  addr_bool := fun a => negb (a =? 0);
  addr_neq := fun a b => negb (a =? b);
  addr_default := 0;
  NSAPI_ERROR_OK := 0;
  NSAPI_ERROR_WOULD_BLOCK := -3001;
  NSAPI_ERROR_UNSUPPORTED := -3002;
  NSAPI_ERROR_NO_SOCKET := -3005;
  NSAPI_ERROR_NO_ADDRESS := -3006;
  osFlagsError := 0x80000000;
  counter_bits := 8;
  MBED_CONF_RTOS_PRESENT := true
|}.

(** An open socket with handle 1 and nobody else using it. *)
Definition open_socket (peer timeout : Z) : World (N := cortex_m_rtos) := {|
  sock := @Build_UDPSocket cortex_m_rtos (Some 1%nat) peer timeout 0 0 0;
  calls_sendto := 0; calls_recvfrom := 0; calls_wait := 0;
  trace := []
|}.

(** The same socket after [close()]: the handle is null. *)
Definition closed_socket (peer timeout : Z) : World (N := cortex_m_rtos) := {|
  sock := @Build_UDPSocket cortex_m_rtos None peer timeout 0 0 0;
  calls_sendto := 0; calls_recvfrom := 0; calls_wait := 0;
  trace := []
|}.

(** Event flags that are signalled [delay] milliseconds into every wait:
    a wait given more time than that returns the awaited flag after
    [delay]; a wait given less expires with [osFlagsErrorTimeout]. *)
Definition signal_after (delay : Z) (f : event_flag) (timeout : Z)
  : parked (N := cortex_m_rtos) :=
  if delay <? timeout
  then {| wait_flags := match f with
                        | READ_FLAG => 1 | WRITE_FLAG => 2
                        | FINISHED_FLAG => 4
                        end;
          wait_elapsed := delay; others := fun s => s |}
  else {| wait_flags := 0xFFFFFFFE;
          wait_elapsed := timeout; others := fun s => s |}.

(** A stack that is busy for the first two attempts to send and takes the
    whole datagram at the third; it has one datagram of two bytes from
    address 7 to deliver on every receive. *)
Definition busy_twice : Env (N := cortex_m_rtos) := {|
  socket_sendto := fun n _ _ _ size =>
    match n with
    | O | S O => -3001
    | _ => size
    end;
  socket_recvfrom := fun _ _ _ =>
    @Build_recvfrom_result cortex_m_rtos 2 (Some 7) (Some [104; 105]);
  wait_any := fun _ => signal_after 60
|}.

(** A stack that is busy once; while the caller is parked another thread
    closes the socket. *)
Definition closed_while_parked : Env (N := cortex_m_rtos) := {|
  socket_sendto := fun _ _ _ _ _ => -3001;
  socket_recvfrom := fun _ _ _ =>
    @Build_recvfrom_result cortex_m_rtos (-3001) None None;
  wait_any := fun _ f _ =>
    {| wait_flags := 4; wait_elapsed := 10;
       others := fun s =>
         @Build_UDPSocket cortex_m_rtos None (_remote_peer s) (_timeout s)
                          (_readers s) (_writers s) (_pending s) |}
|}.

(** A stack that first delivers a datagram of two bytes from address 7 and
    then datagrams of three bytes from address 9. *)
Definition spoofed_then_peer : Env (N := cortex_m_rtos) := {|
  socket_sendto := fun _ _ _ _ size => size;
  socket_recvfrom := fun n _ _ =>
    match n with
    | O => @Build_recvfrom_result cortex_m_rtos 2 (Some 7) (Some [104; 105])
    | _ => @Build_recvfrom_result cortex_m_rtos 3 (Some 9) (Some [1; 2; 3])
    end;
  wait_any := fun _ => signal_after 60
|}.

(** The same target built without the RTOS. *)
Definition cortex_m_bare : Netsocket := {|
  SocketAddress := Z;
  addr_bool := fun a => negb (a =? 0);
  addr_neq := fun a b => negb (a =? b);
  addr_default := 0;
  NSAPI_ERROR_OK := 0;
  NSAPI_ERROR_WOULD_BLOCK := -3001;
  NSAPI_ERROR_UNSUPPORTED := -3002;
  NSAPI_ERROR_NO_SOCKET := -3005;
  NSAPI_ERROR_NO_ADDRESS := -3006;
  osFlagsError := 0x80000000;
  counter_bits := 8;
  MBED_CONF_RTOS_PRESENT := false
|}.

Definition open_socket_bare (peer timeout : Z) : World (N := cortex_m_bare) := {|
  sock := @Build_UDPSocket cortex_m_bare (Some 1%nat) peer timeout 0 0 0;
  calls_sendto := 0; calls_recvfrom := 0; calls_wait := 0;
  trace := []
|}.

(** On the bare target the stack is busy for two attempts, to send and to
    receive alike; there are no event flags to wait on. *)
Definition busy_twice_bare : Env (N := cortex_m_bare) := {|
  socket_sendto := fun n _ _ _ size =>
    match n with
    | O | S O => -3001
    | _ => size
    end;
  socket_recvfrom := fun n _ _ =>
    match n with
    | O | S O => @Build_recvfrom_result cortex_m_bare (-3001) None None
    | _ => @Build_recvfrom_result cortex_m_bare 2 (Some 7) (Some [104; 105])
    end;
  wait_any := fun _ _ _ =>
    @Build_parked cortex_m_bare 0 0 (fun s => s)
|}.

(** A stack that delivers a datagram from address 7 and has nothing more
    to deliver after it. *)
Definition spoofed_then_nothing : Env (N := cortex_m_rtos) := {|
  socket_sendto := fun _ _ _ _ size => size;
  socket_recvfrom := fun n _ _ =>
    match n with
    | O => @Build_recvfrom_result cortex_m_rtos 2 (Some 7) (Some [104; 105])
    | _ => @Build_recvfrom_result cortex_m_rtos (-3001) None None
    end;
  wait_any := fun _ => signal_after 60
|}.

(** A resolver that knows one host, "a" (address 9), and fails with
    [NSAPI_ERROR_DNS_FAILURE]'s neighbour -3010 on every other name; ports
    are kept apart from the address by multiplying it by 65536. *)
Definition one_host (host : list Z) : Z * option Z :=
  match host with
  | [97] => (0, Some 9)
  | _ => (-3010, None)
  end.

Definition port_of (a port : Z) : Z := a * 65536 + port.

(** A stack that is busy for good, with event flags signalled 60 ms into
    every wait. *)
Definition always_busy : Env (N := cortex_m_rtos) := {|
  socket_sendto := fun _ _ _ _ _ => -3001;
  socket_recvfrom := fun _ _ _ =>
    @Build_recvfrom_result cortex_m_rtos (-3001) None None;
  wait_any := fun _ => signal_after 60
|}.

(* ===================================================================== *)
(** * features/netsocket/TLSSocketWrapper.h                               *)
(* ===================================================================== *)

(** The header declares [start_handshake(bool first_call)] and
    [continue_handshake()]; their bodies are in TLSSocketWrapper.cpp,
    which is not part of these sources.  The definitions of this part
    follow the design document (section 4.3 and the error kinds of
    section 7). *)










(* ===================================================================== *)
(** * Properties of Stream::write and Stream::read                        *)
(* ===================================================================== *)

Section StreamFacts.
Context {I : StreamImpl}.

Lemma nth_error_skipn_head (buffer : list Z) (ptr : nat) :
  nth_error buffer ptr = hd_error (skipn ptr buffer).
Proof.
  revert ptr; induction buffer as [|b tl IH]; intros [|p]; simpl; auto.
Qed.

Lemma skipn_S_tail (buffer : list Z) (ptr : nat) :
  skipn (S ptr) buffer = tl (skipn ptr buffer).
Proof.
  revert ptr; induction buffer as [|b tl IH]; intros [|p]; simpl; auto.
  rewrite <- IH; reflexivity.
Qed.

(** The final [ptr] of the write loop never leaves [ptr .. ptr+remaining]. *)
Lemma write_loop_range (remaining : nat) :
  forall buffer ptr d q d',
    write_loop remaining buffer ptr d = Some (q, d') ->
    (ptr <= q <= ptr + remaining)%nat.
Proof.
  induction remaining as [|k IH]; simpl; intros buffer ptr d q d' H.
  - inversion H; subst; lia.
  - destruct (nth_error buffer ptr) as [c|]; [|discriminate].
    destruct (_putc (int_of_char c) d) as [r d1].
    destruct (r =? EOF).
    + inversion H; subst; lia.
    + apply IH in H; lia.
Qed.

(** X2.  Whatever the device does, the value [write] returns lies between
    0 and [length]. *)
Lemma write_between_0_and_length (buffer : list Z) (length : nat) d n d' :
  write buffer length d = Some (n, d') -> 0 <= n <= Z.of_nat length.
Proof.
  unfold write; intros H.
  destruct (write_loop length buffer 0 d) as [[q d1]|] eqn:E; [|discriminate].
  inversion H; subst. apply write_loop_range in E. lia.
Qed.

(** What the write loop counts: the bytes handed to [_putc], the refused
    one included. *)
Lemma write_loop_counts_attempts (remaining : nat) :
  forall buffer ptr d,
    (ptr + remaining <= List.length buffer)%nat ->
    exists d',
      write_loop remaining buffer ptr d =
      Some ((let (n, eof) := accepted (firstn remaining (skipn ptr buffer)) d in
             ptr + if eof then S n else n)%nat, d').
Proof.
  induction remaining as [|k IH]; simpl; intros buffer ptr d Hlen.
  - exists d. rewrite Nat.add_0_r. reflexivity.
  - rewrite nth_error_skipn_head.
    destruct (skipn ptr buffer) as [|c rest] eqn:Es.
    + exfalso. assert (L : List.length (skipn ptr buffer) = 0%nat)
        by (rewrite Es; reflexivity).
      rewrite length_skipn in L. lia.
    + simpl. destruct (_putc (int_of_char c) d) as [r d1].
      destruct (r =? EOF).
      * exists d1. f_equal. f_equal. lia.
      * destruct (IH buffer (S ptr) d1 ltac:(lia)) as [d' Hd'].
        exists d'. rewrite Hd'. rewrite skipn_S_tail, Es. simpl.
        destruct (accepted (firstn k rest) d1) as [n eof].
        f_equal. f_equal. destruct eof; lia.
Qed.

(** X3.  The value [write] returns is the number of bytes it has passed
    to [_putc]: [length] when no call answered [EOF], and otherwise the
    number of bytes accepted before the first [EOF] plus one, for the byte
    that was refused. *)
Lemma write_counts_attempts (buffer : list Z) (length : nat) d :
  (length <= List.length buffer)%nat ->
  exists d',
    write buffer length d =
    Some (let (n, eof) := accepted (firstn length buffer) d in
          Z.of_nat (if eof then S n else n), d').
Proof.
  intros Hlen. unfold write.
  destruct (write_loop_counts_attempts length buffer 0 d Hlen) as [d' H].
  exists d'. rewrite H. simpl.
  destruct (accepted (firstn length buffer) d) as [n eof]. reflexivity.
Qed.

Lemma store_app (pre : list Z) :
  forall buffer c,
    (List.length pre < List.length buffer)%nat ->
    firstn (List.length pre) buffer = pre ->
    store buffer (List.length pre) c =
    Some (pre ++ c :: skipn (S (List.length pre)) buffer).
Proof.
  induction pre as [|a pre IH]; intros [|b tl] c Hlt Hpre; simpl in *; try lia.
  - reflexivity.
  - inversion Hpre as [[Ha Hf]]. rewrite Hf.
    rewrite (IH tl c ltac:(lia) Hf). reflexivity.
Qed.

(** What the read loop does: it stores the characters delivered before the
    first [EOF] behind the ones already stored, and leaves the rest of the
    buffer alone. *)
Lemma read_loop_stores_delivered (remaining : nat) :
  forall buffer pre d,
    (List.length pre + remaining <= List.length buffer)%nat ->
    firstn (List.length pre) buffer = pre ->
    exists d',
      read_loop remaining buffer (List.length pre) d =
      Some (List.length (pre ++ delivered remaining d),
            (pre ++ delivered remaining d)
              ++ skipn (List.length (pre ++ delivered remaining d)) buffer,
            d').
Proof.
  induction remaining as [|k IH]; simpl; intros buffer pre d Hlen Hpre.
  - exists d. rewrite app_nil_r. f_equal. f_equal. f_equal.
    rewrite <- Hpre at 1. symmetry. apply firstn_skipn.
  - destruct (_getc d) as [c d1].
    destruct (c =? EOF).
    + exists d1. rewrite app_nil_r. f_equal. f_equal. f_equal.
      rewrite <- Hpre at 1. symmetry. apply firstn_skipn.
    + rewrite (store_app pre buffer (char_of_int c) ltac:(lia) Hpre).
      set (buffer' := pre ++ char_of_int c :: skipn (S (List.length pre)) buffer).
      assert (Hl : List.length buffer' = List.length buffer).
      { unfold buffer'. rewrite length_app. cbn [List.length]. rewrite length_skipn. lia. }
      assert (Hp' : List.length (pre ++ [char_of_int c]) = S (List.length pre)).
      { rewrite length_app. simpl. lia. }
      destruct (IH buffer' (pre ++ [char_of_int c]) d1) as [d' Hd'].
      * rewrite Hp', Hl. lia.
      * rewrite Hp'. unfold buffer'.
        replace (pre ++ char_of_int c :: skipn (S (List.length pre)) buffer)
          with ((pre ++ [char_of_int c]) ++ skipn (S (List.length pre)) buffer)
          by (rewrite <- app_assoc; reflexivity).
        rewrite <- Hp'. rewrite firstn_app, firstn_all, Nat.sub_diag.
        simpl. apply app_nil_r.
      * exists d'. rewrite Hp' in Hd'. rewrite Hd'.
        rewrite <- !app_assoc. simpl.
        f_equal. f_equal. f_equal. f_equal.
        set (m := List.length (pre ++ char_of_int c :: delivered k d1)).
        assert (Hm : (S (List.length pre) <= m)%nat).
        { unfold m. rewrite length_app. simpl. lia. }
        unfold buffer'.
        replace m with (List.length pre + (m - List.length pre))%nat by lia.
        rewrite skipn_app, Nat.add_comm at 1.
        replace (List.length pre + (m - List.length pre) - List.length pre)%nat
          with (S (m - S (List.length pre))) by lia.
        rewrite skipn_all2 by lia.
        rewrite skipn_cons, skipn_skipn. cbn [app].
        do 3 f_equal. lia.
Qed.

(** X5.  [read] returns the number of characters stored before the first
    [EOF] of [_getc]; exactly that many leading bytes of the buffer are
    overwritten, with the characters delivered, in order, and the others
    keep their value. *)
Lemma read_counts_stored (buffer : list Z) (length : nat) d :
  (length <= List.length buffer)%nat ->
  exists d',
    read buffer length d =
    Some (Z.of_nat (List.length (delivered length d)),
          delivered length d ++ skipn (List.length (delivered length d)) buffer,
          d').
Proof.
  intros Hlen. unfold read.
  destruct (read_loop_stores_delivered length buffer [] d Hlen eq_refl) as [d' H].
  exists d'. simpl in H. rewrite H. reflexivity.
Qed.
End StreamFacts.

(** C10 (the defect).  On a device that refuses the very first character,
    no byte of the buffer is accepted, and yet [Stream::write] returns 1:
    [ptr] is advanced by [*ptr++] before the result of [_putc] is compared
    with [EOF], so the refused byte is counted.  [Stream::read], on the same
    device, returns 0 and leaves the buffer as it was. *)
Theorem Stream_write_counts_refused_byte :
  accepted (I := full_device) [97; 98] tt = (0%nat, true) /\
  write (I := full_device) [97; 98] 2 tt = Some (1, tt) /\
  read (I := full_device) [97; 98] 2 tt = Some (0, [97; 98], tt).
Proof. repeat split; reflexivity. Qed.

(* ===================================================================== *)
(** * More on Stream::write and Stream::read                              *)
(* ===================================================================== *)

Section StreamMoreFacts.
Context {I : StreamImpl}.

Lemma firstn_S_skipn_head (buffer : list Z) (ptr k : nat) (c : Z) :
  nth_error buffer ptr = Some c ->
  firstn (S k) (skipn ptr buffer) = c :: firstn k (skipn (S ptr) buffer).
Proof.
  intros H. rewrite nth_error_skipn_head in H. rewrite skipn_S_tail.
  destruct (skipn ptr buffer) as [|c' rest]; [discriminate|].
  inversion H; subst. reflexivity.
Qed.

Lemma write_loop_feeds (remaining : nat) :
  forall buffer ptr d q d',
    write_loop remaining buffer ptr d = Some (q, d') ->
    d' = fed (firstn (q - ptr) (skipn ptr buffer)) d.
Proof.
  induction remaining as [|k IH]; simpl; intros buffer ptr d q d' H.
  - inversion H; subst. rewrite Nat.sub_diag. reflexivity.
  - destruct (nth_error buffer ptr) as [c|] eqn:Hc; [|discriminate].
    destruct (_putc (int_of_char c) d) as [r d1] eqn:Hp.
    destruct (r =? EOF).
    + inversion H; subst.
      replace (S ptr - ptr)%nat with 1%nat by lia.
      rewrite (firstn_S_skipn_head _ _ _ _ Hc). simpl. rewrite Hp. reflexivity.
    + pose proof (write_loop_range _ _ _ _ _ _ H) as Hr.
      apply IH in H.
      replace (q - ptr)%nat with (S (q - S ptr)) by lia.
      rewrite (firstn_S_skipn_head _ _ _ _ Hc). simpl. rewrite Hp. exact H.
Qed.

(** X1.  [Stream::write] calls [_putc] on the first [n] bytes of the
    buffer, in order and once each, where [n] is the value it returns, and
    on nothing else: the device is left exactly as these [n] calls leave
    it. *)
Theorem write_feeds_returned_prefix (buffer : list Z) (length : nat) d n d' :
  write buffer length d = Some (n, d') ->
  d' = fed (firstn (Z.to_nat n) buffer) d.
Proof.
  unfold write. intros H.
  destruct (write_loop length buffer 0 d) as [[q d1]|] eqn:E; [|discriminate].
  inversion H; subst. rewrite Nat2Z.id.
  apply write_loop_feeds in E. rewrite Nat.sub_0_r in E. exact E.
Qed.

Lemma write_loop_without_eof (remaining : nat) :
  (forall c d, fst (_putc c d) <> EOF) ->
  forall buffer ptr d,
    (ptr + remaining <= List.length buffer)%nat ->
    exists d', write_loop remaining buffer ptr d = Some ((ptr + remaining)%nat, d').
Proof.
  intros Hno. induction remaining as [|k IH]; simpl; intros buffer ptr d Hlen.
  - exists d. rewrite Nat.add_0_r. reflexivity.
  - destruct (nth_error buffer ptr) as [c|] eqn:Hc.
    + pose proof (Hno (int_of_char c) d) as Hne.
      destruct (_putc (int_of_char c) d) as [r d1]. cbn [fst] in Hne.
      apply Z.eqb_neq in Hne. rewrite Hne.
      destruct (IH buffer (S ptr) d1 ltac:(lia)) as [d' Hd'].
      exists d'. rewrite Hd'. f_equal. f_equal. lia.
    + apply nth_error_None in Hc. lia.
Qed.

Lemma delivered_without_eof (n : nat) :
  (forall d, fst (_getc d) <> EOF) ->
  forall d, List.length (delivered n d) = n.
Proof.
  intros Hno. induction n as [|k IH]; simpl; intros d; [reflexivity|].
  pose proof (Hno d) as Hne. destruct (_getc d) as [c d1]. cbn [fst] in Hne.
  apply Z.eqb_neq in Hne. rewrite Hne. simpl. rewrite IH. reflexivity.
Qed.

(** X4.  On a device that never answers [EOF], [write] and [read]
    transfer everything: both return [length], [write] has passed the
    first [length] bytes of the buffer to [_putc], and [read] has
    overwritten the first [length] bytes of the buffer and no other. *)
Theorem write_read_complete_without_eof (buffer : list Z) (length : nat) d :
  (length <= List.length buffer)%nat ->
  ((forall c d0, fst (_putc c d0) <> EOF) ->
   write buffer length d
   = Some (Z.of_nat length, fed (firstn length buffer) d)) /\
  ((forall d0, fst (_getc d0) <> EOF) ->
   exists d',
     read buffer length d
     = Some (Z.of_nat length,
             delivered length d ++ skipn length buffer, d') /\
     List.length (delivered length d) = length).
Proof.
  intros Hlen. split; intros Hno.
  - destruct (write_loop_without_eof length Hno buffer 0 d Hlen) as [d' H].
    unfold write. rewrite H. cbn [Nat.add].
    apply write_loop_feeds in H. rewrite Nat.sub_0_r in H. cbn [skipn] in H.
    rewrite H. reflexivity.
  - destruct (read_loop_stores_delivered length buffer [] d Hlen eq_refl)
      as [d' H].
    exists d'. unfold read. cbn [List.length app] in H. rewrite H.
    rewrite (delivered_without_eof length Hno d).
    split; reflexivity.
Qed.
Lemma read_loop_drains (remaining : nat) :
  forall buffer ptr d q buffer' d',
    read_loop remaining buffer ptr d = Some (q, buffer', d') ->
    (ptr <= q <= ptr + remaining)%nat /\
    d' = drained (if (q - ptr <? remaining)%nat then S (q - ptr) else remaining) d.
Proof.
  induction remaining as [|k IH]; simpl; intros buffer ptr d q buffer' d' H.
  - inversion H; subst. split; [lia | reflexivity].
  - destruct (_getc d) as [c d1] eqn:Hg.
    destruct (c =? EOF).
    + inversion H; subst. rewrite Nat.sub_diag. split; [lia|].
      cbn [Nat.ltb Nat.leb drained]. rewrite Hg. reflexivity.
    + destruct (store buffer ptr (char_of_int c)) as [b1|]; [|discriminate].
      apply IH in H. destruct H as [Hr Hd]. split; [lia|].
      replace (q - ptr)%nat with (S (q - S ptr)) by lia.
      change (S (q - S ptr) <? S k)%nat with (q - S ptr <? k)%nat.
      rewrite Hd.
      destruct (q - S ptr <? k)%nat; cbn [drained]; rewrite Hg; reflexivity.
Qed.

(** X6.  [Stream::read] calls [_getc] once for every character it stores
    and once more for the [EOF] that ends it early, if any: never again
    after an [EOF] and never more than [length] times.  The value it
    returns lies between 0 and [length]. *)
Theorem read_stops_asking_at_eof (buffer : list Z) (length : nat) d
        n buffer' d' :
  read buffer length d = Some (n, buffer', d') ->
  0 <= n <= Z.of_nat length /\
  d' = drained (if n <? Z.of_nat length then S (Z.to_nat n) else length) d.
Proof.
  unfold read. intros H.
  destruct (read_loop length buffer 0 d) as [[[q b1] d1]|] eqn:E;
    [|discriminate].
  inversion H; subst. apply read_loop_drains in E.
  rewrite Nat.sub_0_r in E. destruct E as [Hr Hd].
  split; [lia|]. rewrite Nat2Z.id.
  destruct (q <? length)%nat eqn:Hq.
  - apply Nat.ltb_lt in Hq.
    replace (Z.of_nat q <? Z.of_nat length) with true
      by (symmetry; apply Z.ltb_lt; lia).
    exact Hd.
  - apply Nat.ltb_ge in Hq.
    replace (Z.of_nat q <? Z.of_nat length) with false
      by (symmetry; apply Z.ltb_ge; lia).
    exact Hd.
Qed.

Lemma accepted_up_to_byte_255 (pre post : list Z) :
  char_is_signed = true ->
  EOF = -1 ->
  (forall c d0, fst (_putc c d0) = c) ->
  Forall (fun b => 0 <= b < 255) pre ->
  forall d, accepted (pre ++ 255 :: post) d = (List.length pre, true).
Proof.
  intros Hsigned Heof Hecho Hpre.
  induction Hpre as [|b pre Hb Hpre IH]; intros d; cbn [app accepted List.length].
  - pose proof (Hecho (int_of_char 255) d) as He.
    destruct (_putc (int_of_char 255) d) as [r d1]. cbn [fst] in He. subst r.
    unfold int_of_char. rewrite Hsigned, Heof. reflexivity.
  - pose proof (Hecho (int_of_char b) d) as He.
    destruct (_putc (int_of_char b) d) as [r d1]. cbn [fst] in He. subst r.
    replace (int_of_char b =? EOF) with false.
    + rewrite IH. reflexivity.
    + symmetry. apply Z.eqb_neq. unfold int_of_char. rewrite Hsigned, Heof.
      cbn [andb]. destruct (128 <=? b) eqn:E.
      * apply Z.leb_le in E. lia.
      * lia.
Qed.

(** X7.  Where [char] is signed and [EOF] is -1, the byte 255 reaches
    [_putc] as -1.  A device that answers with the character it was given
    then seems to answer [EOF]: [write] stops right after the first byte
    255 of the buffer and returns its position plus one, however long the
    buffer is. *)
Theorem write_stops_at_byte_255_when_char_is_signed (pre post : list Z) d :
  char_is_signed = true ->
  EOF = -1 ->
  (forall c d0, fst (_putc c d0) = c) ->
  Forall (fun b => 0 <= b < 255) pre ->
  exists d',
    write (pre ++ 255 :: post) (List.length (pre ++ 255 :: post)) d
    = Some (Z.of_nat (S (List.length pre)), d').
Proof.
  intros Hsigned Heof Hecho Hpre.
  destruct (write_loop_counts_attempts
              (List.length (pre ++ 255 :: post)) (pre ++ 255 :: post) 0 d
              ltac:(cbn [Nat.add]; lia)) as [d' H].
  exists d'. unfold write. rewrite H. cbn [skipn].
  rewrite firstn_all.
  rewrite (accepted_up_to_byte_255 pre post Hsigned Heof Hecho Hpre).
  reflexivity.
Qed.
End StreamMoreFacts.

(** The witnesses: a device with room for two bytes and two characters of
    input, the steady device and the echoing device. *)
Lemma write_feeds_returned_prefix_witness :
  (0%nat, [1; 2], [7; 8])
  = fed (I := list_device) (firstn (Z.to_nat 3) [1; 2; 3]) (2%nat, [], [7; 8]).
Proof.
  apply (write_feeds_returned_prefix
           (I := list_device) [1; 2; 3] 3 (2%nat, [], [7; 8]) 3).
  reflexivity.
Defined.

Lemma write_between_0_and_length_witness : 0 <= 3 <= Z.of_nat 3.
Proof.
  apply (write_between_0_and_length
           (I := list_device) [1; 2; 3] 3 (2%nat, [], [7; 8]) 3
           (0%nat, [1; 2], [7; 8])).
  reflexivity.
Defined.

Lemma write_counts_attempts_witness :
  exists d',
    write (I := list_device) [1; 2; 3; 4] 4 (2%nat, [], [7; 8])
    = Some (3, d').
Proof.
  destruct (write_counts_attempts
              (I := list_device) [1; 2; 3; 4] 4 (2%nat, [], [7; 8])
              ltac:(simpl; lia)) as [d' H].
  exists d'. exact H.
Defined.

Lemma write_read_complete_without_eof_witness :
  write (I := steady_device) [1; 2; 3] 2 0%nat = Some (2, 2%nat) /\
  exists d',
    read (I := steady_device) [1; 2; 3] 2 0%nat = Some (2, [65; 65; 3], d').
Proof.
  destruct (write_read_complete_without_eof
              (I := steady_device) [1; 2; 3] 2 0%nat ltac:(simpl; lia))
    as [Hw Hr].
  split.
  - apply Hw. intros c d0. simpl. discriminate.
  - destruct Hr as (d' & Hread & _).
    + intros d0. simpl. discriminate.
    + exists d'. exact Hread.
Defined.

Lemma read_counts_stored_witness :
  exists d',
    read (I := list_device) [0; 0; 0; 0] 3 (2%nat, [], [7; 8])
    = Some (2, [7; 8; 0; 0], d').
Proof.
  destruct (read_counts_stored
              (I := list_device) [0; 0; 0; 0] 3 (2%nat, [], [7; 8])
              ltac:(simpl; lia)) as [d' H].
  exists d'. exact H.
Defined.

Lemma read_stops_asking_at_eof_witness :
  0 <= 2 <= Z.of_nat 3 /\
  (2%nat, [], [])
  = drained (I := list_device) 3 (2%nat, [], [7; 8]).
Proof.
  apply (read_stops_asking_at_eof
           (I := list_device) [0; 0; 0; 0] 3 (2%nat, [], [7; 8])
           2 [7; 8; 0; 0] (2%nat, [], [])).
  reflexivity.
Defined.

Lemma write_stops_at_byte_255_when_char_is_signed_witness :
  exists d',
    write (I := echo_device true) [104; 200; 255; 105; 106] 5 []
    = Some (3, d').
Proof.
  apply (write_stops_at_byte_255_when_char_is_signed
           (I := echo_device true) [104; 200] [105; 106] []).
  - reflexivity.
  - reflexivity.
  - intros c d0. reflexivity.
  - repeat constructor; lia.
Defined.

(* ===================================================================== *)
(** * Properties of UDPSocket                                             *)
(* ===================================================================== *)

(** Runs the monadic code of one call on a symbolic world. *)
Ltac run_udp :=
  unfold bind, ret, get, put, emit, out_of_fuel,
    stack_socket_sendto, stack_socket_recvfrom, event_flag_wait_any;
  cbn [sock calls_sendto calls_recvfrom calls_wait trace
       _socket _remote_peer _timeout _readers _writers _pending
       set_remote_peer set_readers set_writers set_pending
       is_null negb orb andb fst snd].

Lemma geb_negative (x : Z) : x < 0 -> (x >=? 0) = false.
Proof. intros H. rewrite Z.geb_leb. apply Z.leb_gt. exact H. Qed.

Lemma geb_nonnegative (x : Z) : 0 <= x -> (x >=? 0) = true.
Proof. intros H. rewrite Z.geb_leb. apply Z.leb_le. exact H. Qed.

(** Moves [waits] past the first event of a trace. *)
Ltac step_waits :=
  repeat match goal with
    | |- context [waits (EvWait ?f ?t ?fl ?el :: ?l)] =>
        change (waits (EvWait f t fl el :: l)) with ((t, el) :: waits l)
    | |- context [waits (?e :: ?l)] =>
        change (waits (e :: l)) with (waits l)
    | |- context [waits []] => change (waits []) with (@nil (Z * Z))
    | H : context [waits (EvWait ?f ?t ?fl ?el :: ?l)] |- _ =>
        change (waits (EvWait f t fl el :: l)) with ((t, el) :: waits l) in H
    | H : context [waits (?e :: ?l)] |- _ =>
        change (waits (e :: l)) with (waits l) in H
    end.

(** Moves [transfers] past the first event of a trace. *)
Ltac step_transfers :=
  repeat match goal with
    | |- context [transfers (EvSendto ?h ?a ?d ?s ?r :: ?l)] =>
        change (transfers (EvSendto h a d s r :: l))
          with (EvSendto h a d s r :: transfers l)
    | |- context [transfers (EvRecvfrom ?h ?s ?r :: ?l)] =>
        change (transfers (EvRecvfrom h s r :: l))
          with (EvRecvfrom h s r :: transfers l)
    | |- context [transfers (?e :: ?l)] =>
        change (transfers (e :: l)) with (transfers l)
    end.

(** Reads the fields of the worlds a call passes through. *)
Ltac world_fields :=
  cbn [sendto_enter sendto_leave recvfrom_enter recvfrom_leave
       after_events after_sendto after_recvfrom after_wait
       sock calls_sendto calls_recvfrom calls_wait trace
       set_remote_peer set_readers set_writers set_pending
       _socket _remote_peer _timeout _readers _writers _pending].

Section UDPSocketFacts.
Context {N : Netsocket} (env : Env).

Lemma events_since_app (w w' : World) (evs : list Event) :
  trace w' = trace w ++ evs -> events_since w w' = evs.
Proof.
  intros H. unfold events_since. rewrite H.
  rewrite skipn_app, Nat.sub_diag, skipn_all. reflexivity.
Qed.

(** [events_since] of a world whose trace is the old one with events
    appended. *)
Ltac since_events :=
  match goal with
  | |- context [events_since ?w ?w'] =>
      erewrite (events_since_app w w')
        by (world_fields; rewrite <- ?app_assoc; reflexivity)
  end.

Lemma waits_app (a b : list Event) : waits (a ++ b) = waits a ++ waits b.
Proof. unfold waits. apply flat_map_app. Qed.

(** One turn of the loop of [sendto]. *)
Lemma sendto_loop_step fuel address data size (w : World) :
  sendto_loop env (S fuel) address data size w =
  match _socket (sock w) with
  | None => Some (NSAPI_ERROR_NO_SOCKET, w)
  | Some h =>
      let sent := socket_sendto env (calls_sendto w) h address data size in
      let w1 := after_sendto env h address data size w in
      if (0 =? _timeout (sock w)) || negb (NSAPI_ERROR_WOULD_BLOCK =? sent)
      then Some (sent, after_events [EvStatsSent sent] w1)
      else if MBED_CONF_RTOS_PRESENT then
        if negb (Z.land (wait_flags (next_wait env WRITE_FLAG w1))
                        osFlagsError =? 0)
        then Some (NSAPI_ERROR_WOULD_BLOCK, after_wait env WRITE_FLAG w1)
        else sendto_loop env fuel address data size
                         (after_wait env WRITE_FLAG w1)
      else sendto_loop env fuel address data size
                       (after_events [EvUnlock; EvLock] w1)
  end.
Proof.
  cbn [sendto_loop]. run_udp.
  destruct (_socket (sock w)) as [h|]; [|reflexivity].
  cbv zeta.
  destruct ((0 =? _timeout (sock w))
            || negb (NSAPI_ERROR_WOULD_BLOCK
                     =? socket_sendto env (calls_sendto w) h address data size)).
  - reflexivity.
  - unfold after_wait, after_events, next_wait, after_sendto.
    destruct MBED_CONF_RTOS_PRESENT; cbv beta zeta; run_udp;
      rewrite <- ?app_assoc; cbn [app].
    + destruct (negb _); reflexivity.
    + reflexivity.
Qed.

(** One turn of the loop of [recvfrom]. *)
Lemma recvfrom_loop_step fuel address buffer size (w : World) :
  recvfrom_loop env (S fuel) address buffer size w =
  match _socket (sock w) with
  | None => Some ((NSAPI_ERROR_NO_SOCKET, address, buffer), w)
  | Some h =>
      let r := socket_recvfrom env (calls_recvfrom w) h size in
      let address' :=
        match rf_address r with Some a => a | None => address end in
      let buffer' :=
        match rf_buffer r with Some b => b | None => buffer end in
      let w1 := after_recvfrom env h size w in
      if (rf_ret r >=? 0) && addr_bool (_remote_peer (sock w))
         && addr_neq (_remote_peer (sock w)) address'
      then recvfrom_loop env fuel address' buffer' size w1
      else
        let w2 := after_events [EvStatsPeer (_remote_peer (sock w))] w1 in
        if (0 =? _timeout (sock w))
           || negb (NSAPI_ERROR_WOULD_BLOCK =? rf_ret r)
        then Some ((rf_ret r, address', buffer'),
                   after_events [EvStatsRecv (rf_ret r)] w2)
        else if MBED_CONF_RTOS_PRESENT then
          if negb (Z.land (wait_flags (next_wait env READ_FLAG w2))
                          osFlagsError =? 0)
          then Some ((NSAPI_ERROR_WOULD_BLOCK, address', buffer'),
                     after_wait env READ_FLAG w2)
          else recvfrom_loop env fuel address' buffer' size
                             (after_wait env READ_FLAG w2)
        else recvfrom_loop env fuel address' buffer' size
                           (after_events [EvUnlock; EvLock] w2)
  end.
Proof.
  cbn [recvfrom_loop]. run_udp.
  destruct (_socket (sock w)) as [h|]; [|reflexivity].
  cbv zeta.
  destruct ((rf_ret (socket_recvfrom env (calls_recvfrom w) h size) >=? 0)
            && addr_bool (_remote_peer (sock w))
            && addr_neq (_remote_peer (sock w)) _); [reflexivity|].
  destruct ((0 =? _timeout (sock w)) || negb _).
  - unfold after_events, after_recvfrom. run_udp.
    rewrite <- ?app_assoc. reflexivity.
  - unfold after_wait, after_events, next_wait, after_recvfrom.
    destruct MBED_CONF_RTOS_PRESENT; cbv beta zeta; run_udp;
      rewrite <- ?app_assoc; cbn [app].
    + destruct (negb _); reflexivity.
    + reflexivity.
Qed.

(** [sendto] is its loop between [sendto_enter] and [sendto_leave]. *)
Lemma sendto_run fuel address data size (w : World) :
  sendto env fuel address data size w =
  match sendto_loop env fuel address data size (sendto_enter address w) with
  | Some (r, w1) => Some (r, sendto_leave w1)
  | None => None
  end.
Proof.
  unfold sendto, sendto_enter, sendto_leave, leave_events. run_udp.
  destruct (_socket (sock w)) as [h|]; run_udp;
    rewrite <- ?app_assoc; cbn [app];
    (destruct (sendto_loop env fuel address data size _) as [[r w1]|];
     [|reflexivity]);
    run_udp;
    (destruct (is_null (_socket (sock w1)) || _);
     [destruct MBED_CONF_RTOS_PRESENT|]);
    run_udp; rewrite <- ?app_assoc; reflexivity.
Qed.

(** [recvfrom] is its loop between [recvfrom_enter] and [recvfrom_leave]. *)
Lemma recvfrom_run fuel address buffer size (w : World) :
  recvfrom env fuel address buffer size w =
  match recvfrom_loop env fuel
          (match address with Some a => a | None => addr_default end)
          buffer size (recvfrom_enter w) with
  | Some (r, w1) => Some (r, recvfrom_leave w1)
  | None => None
  end.
Proof.
  unfold recvfrom, recvfrom_enter, recvfrom_leave, leave_events. run_udp.
  destruct (_socket (sock w)) as [h|]; run_udp;
    rewrite <- ?app_assoc; cbn [app];
    (destruct (recvfrom_loop env fuel _ buffer size _) as [[r w1]|];
     [|reflexivity]);
    run_udp;
    (destruct (is_null (_socket (sock w1)) || _);
     [destruct MBED_CONF_RTOS_PRESENT|]);
    run_udp; rewrite <- ?app_assoc; reflexivity.
Qed.

(** Induction on the turns of the loop of [sendto]: a property of the
    world at the start of a turn, the value at the [break] and the world
    there holds of every run that returns, if it holds of the three ways
    to leave the loop and is carried over the two ways to go round. *)
Lemma sendto_loop_induction address data size
      (P : World -> Z -> World -> Prop) :
  (forall w, _socket (sock w) = None -> P w NSAPI_ERROR_NO_SOCKET w) ->
  (forall w h,
      _socket (sock w) = Some h ->
      let sent := socket_sendto env (calls_sendto w) h address data size in
      (0 =? _timeout (sock w)) || negb (NSAPI_ERROR_WOULD_BLOCK =? sent) = true ->
      P w sent (after_events [EvStatsSent sent]
                             (after_sendto env h address data size w))) ->
  (forall w h,
      _socket (sock w) = Some h ->
      let sent := socket_sendto env (calls_sendto w) h address data size in
      let w1 := after_sendto env h address data size w in
      (0 =? _timeout (sock w)) || negb (NSAPI_ERROR_WOULD_BLOCK =? sent) = false ->
      MBED_CONF_RTOS_PRESENT = true ->
      (Z.land (wait_flags (next_wait env WRITE_FLAG w1)) osFlagsError =? 0) = false ->
      P w NSAPI_ERROR_WOULD_BLOCK (after_wait env WRITE_FLAG w1)) ->
  (forall w h r w',
      _socket (sock w) = Some h ->
      let sent := socket_sendto env (calls_sendto w) h address data size in
      let w1 := after_sendto env h address data size w in
      (0 =? _timeout (sock w)) || negb (NSAPI_ERROR_WOULD_BLOCK =? sent) = false ->
      MBED_CONF_RTOS_PRESENT = true ->
      (Z.land (wait_flags (next_wait env WRITE_FLAG w1)) osFlagsError =? 0) = true ->
      P (after_wait env WRITE_FLAG w1) r w' -> P w r w') ->
  (forall w h r w',
      _socket (sock w) = Some h ->
      let sent := socket_sendto env (calls_sendto w) h address data size in
      let w1 := after_sendto env h address data size w in
      (0 =? _timeout (sock w)) || negb (NSAPI_ERROR_WOULD_BLOCK =? sent) = false ->
      MBED_CONF_RTOS_PRESENT = false ->
      P (after_events [EvUnlock; EvLock] w1) r w' -> P w r w') ->
  forall fuel w r w',
    sendto_loop env fuel address data size w = Some (r, w') -> P w r w'.
Proof.
  intros Hnull Hdone Hexpired Hretry Hspin.
  induction fuel as [|fuel IH]; intros w r w' Hrun; [discriminate|].
  rewrite sendto_loop_step in Hrun.
  destruct (_socket (sock w)) as [h|] eqn:Hs.
  - cbv zeta in Hrun.
    destruct ((0 =? _timeout (sock w)) || negb _) eqn:Hc.
    + inversion Hrun; subst. apply Hdone; assumption.
    + destruct MBED_CONF_RTOS_PRESENT eqn:Hr.
      * destruct (Z.land _ osFlagsError =? 0) eqn:Hf; cbn [negb] in Hrun.
        -- eapply Hretry; eauto.
        -- inversion Hrun; subst. eapply Hexpired; eauto.
      * eapply Hspin; eauto.
  - inversion Hrun; subst. apply Hnull; assumption.
Qed.

(** The same for the loop of [recvfrom]; the property also speaks of
    what [address] and [buffer] point to at the start of the turn. *)
Lemma recvfrom_loop_induction size
      (P : World -> SocketAddress -> list Z ->
           Z * SocketAddress * list Z -> World -> Prop) :
  (forall w address buffer,
      _socket (sock w) = None ->
      P w address buffer (NSAPI_ERROR_NO_SOCKET, address, buffer) w) ->
  (forall w address buffer h res w',
      _socket (sock w) = Some h ->
      let r := socket_recvfrom env (calls_recvfrom w) h size in
      let address' := match rf_address r with Some a => a | None => address end in
      let buffer' := match rf_buffer r with Some b => b | None => buffer end in
      (rf_ret r >=? 0) && addr_bool (_remote_peer (sock w))
        && addr_neq (_remote_peer (sock w)) address' = true ->
      P (after_recvfrom env h size w) address' buffer' res w' ->
      P w address buffer res w') ->
  (forall w address buffer h,
      _socket (sock w) = Some h ->
      let r := socket_recvfrom env (calls_recvfrom w) h size in
      let address' := match rf_address r with Some a => a | None => address end in
      let buffer' := match rf_buffer r with Some b => b | None => buffer end in
      let w2 := after_events [EvStatsPeer (_remote_peer (sock w))]
                             (after_recvfrom env h size w) in
      (rf_ret r >=? 0) && addr_bool (_remote_peer (sock w))
        && addr_neq (_remote_peer (sock w)) address' = false ->
      (0 =? _timeout (sock w)) || negb (NSAPI_ERROR_WOULD_BLOCK =? rf_ret r) = true ->
      P w address buffer (rf_ret r, address', buffer')
        (after_events [EvStatsRecv (rf_ret r)] w2)) ->
  (forall w address buffer h,
      _socket (sock w) = Some h ->
      let r := socket_recvfrom env (calls_recvfrom w) h size in
      let address' := match rf_address r with Some a => a | None => address end in
      let buffer' := match rf_buffer r with Some b => b | None => buffer end in
      let w2 := after_events [EvStatsPeer (_remote_peer (sock w))]
                             (after_recvfrom env h size w) in
      (rf_ret r >=? 0) && addr_bool (_remote_peer (sock w))
        && addr_neq (_remote_peer (sock w)) address' = false ->
      (0 =? _timeout (sock w)) || negb (NSAPI_ERROR_WOULD_BLOCK =? rf_ret r) = false ->
      MBED_CONF_RTOS_PRESENT = true ->
      (Z.land (wait_flags (next_wait env READ_FLAG w2)) osFlagsError =? 0) = false ->
      P w address buffer (NSAPI_ERROR_WOULD_BLOCK, address', buffer')
        (after_wait env READ_FLAG w2)) ->
  (forall w address buffer h res w',
      _socket (sock w) = Some h ->
      let r := socket_recvfrom env (calls_recvfrom w) h size in
      let address' := match rf_address r with Some a => a | None => address end in
      let buffer' := match rf_buffer r with Some b => b | None => buffer end in
      let w2 := after_events [EvStatsPeer (_remote_peer (sock w))]
                             (after_recvfrom env h size w) in
      (rf_ret r >=? 0) && addr_bool (_remote_peer (sock w))
        && addr_neq (_remote_peer (sock w)) address' = false ->
      (0 =? _timeout (sock w)) || negb (NSAPI_ERROR_WOULD_BLOCK =? rf_ret r) = false ->
      MBED_CONF_RTOS_PRESENT = true ->
      (Z.land (wait_flags (next_wait env READ_FLAG w2)) osFlagsError =? 0) = true ->
      P (after_wait env READ_FLAG w2) address' buffer' res w' ->
      P w address buffer res w') ->
  (forall w address buffer h res w',
      _socket (sock w) = Some h ->
      let r := socket_recvfrom env (calls_recvfrom w) h size in
      let address' := match rf_address r with Some a => a | None => address end in
      let buffer' := match rf_buffer r with Some b => b | None => buffer end in
      let w2 := after_events [EvStatsPeer (_remote_peer (sock w))]
                             (after_recvfrom env h size w) in
      (rf_ret r >=? 0) && addr_bool (_remote_peer (sock w))
        && addr_neq (_remote_peer (sock w)) address' = false ->
      (0 =? _timeout (sock w)) || negb (NSAPI_ERROR_WOULD_BLOCK =? rf_ret r) = false ->
      MBED_CONF_RTOS_PRESENT = false ->
      P (after_events [EvUnlock; EvLock] w2) address' buffer' res w' ->
      P w address buffer res w') ->
  forall fuel w address buffer res w',
    recvfrom_loop env fuel address buffer size w = Some (res, w') ->
    P w address buffer res w'.
Proof.
  intros Hnull Hfilter Hdone Hexpired Hretry Hspin.
  induction fuel as [|fuel IH]; intros w address buffer res w' Hrun;
    [discriminate|].
  rewrite recvfrom_loop_step in Hrun.
  destruct (_socket (sock w)) as [h|] eqn:Hs.
  - cbv zeta in Hrun.
    destruct ((rf_ret _ >=? 0) && addr_bool (_remote_peer (sock w)) && _)
      eqn:Hflt.
    + eapply Hfilter; eauto.
    + destruct ((0 =? _timeout (sock w)) || negb _) eqn:Hc.
      * inversion Hrun; subst. apply Hdone; assumption.
      * destruct MBED_CONF_RTOS_PRESENT eqn:Hr.
        -- destruct (Z.land _ osFlagsError =? 0) eqn:Hf; cbn [negb] in Hrun.
           ++ eapply Hretry; eauto.
           ++ inversion Hrun; subst. eapply Hexpired; eauto.
        -- eapply Hspin; eauto.
  - inversion Hrun; subst. apply Hnull; assumption.
Qed.

(** The loops are made of these steps. *)
Lemma sendto_loop_steps fuel address data size (w : World) r w' :
  sendto_loop env fuel address data size w = Some (r, w') ->
  exists evs, steps env w evs w'.
Proof.
  revert fuel w r w'.
  apply (sendto_loop_induction address data size
           (fun w _ w' => exists evs, steps env w evs w')).
  - intros w _. eexists. constructor.
  - intros w h _ sent _. eexists.
    apply steps_sendto. apply steps_stats with (e := EvStatsSent sent);
      [reflexivity|]. constructor.
  - intros w h _ sent w1 _ _ _. eexists.
    apply steps_sendto. apply steps_wait. constructor.
  - intros w h r w' _ sent w1 _ _ _ [evs H]. eexists.
    apply steps_sendto. apply steps_wait. exact H.
  - intros w h r w' _ sent w1 _ _ [evs H]. eexists.
    apply steps_sendto. apply steps_spin. exact H.
Qed.

Lemma recvfrom_loop_steps fuel address buffer size (w : World) res w' :
  recvfrom_loop env fuel address buffer size w = Some (res, w') ->
  exists evs, steps env w evs w'.
Proof.
  revert fuel w address buffer res w'.
  apply (recvfrom_loop_induction size
           (fun w _ _ _ w' => exists evs, steps env w evs w')).
  - intros w _ _ _. eexists. constructor.
  - intros w address buffer h res w' _ r a' b' _ [evs H]. eexists.
    apply steps_recvfrom. exact H.
  - intros w address buffer h _ r a' b' w2 _ _. eexists.
    apply steps_recvfrom.
    apply steps_stats with (e := EvStatsPeer (_remote_peer (sock w)));
      [reflexivity|].
    apply steps_stats with (e := EvStatsRecv (rf_ret r)); [reflexivity|].
    constructor.
  - intros w address buffer h _ r a' b' w2 _ _ _ _. eexists.
    apply steps_recvfrom.
    apply steps_stats with (e := EvStatsPeer (_remote_peer (sock w)));
      [reflexivity|].
    apply steps_wait. constructor.
  - intros w address buffer h res w' _ r a' b' w2 _ _ _ _ [evs H]. eexists.
    apply steps_recvfrom.
    apply steps_stats with (e := EvStatsPeer (_remote_peer (sock w)));
      [reflexivity|].
    apply steps_wait. exact H.
  - intros w address buffer h res w' _ r a' b' w2 _ _ _ [evs H]. eexists.
    apply steps_recvfrom.
    apply steps_stats with (e := EvStatsPeer (_remote_peer (sock w)));
      [reflexivity|].
    apply steps_spin. exact H.
Qed.

(** What the steps of a loop do to the trace and to the socket. *)
Lemma steps_trace (w : World) evs w' :
  steps env w evs w' -> trace w' = trace w ++ evs.
Proof.
  induction 1; cbn [after_sendto after_recvfrom after_events after_wait trace]
    in *; try rewrite IHsteps; rewrite <- ?app_assoc; cbn [app];
    auto using app_nil_r.
Qed.

Lemma steps_never_set_finished (w : World) evs w' :
  steps env w evs w' -> filter is_set_finished evs = [].
Proof.
  induction 1; cbn [filter is_set_finished]; auto.
  destruct e; try discriminate; assumption.
Qed.

Lemma steps_keep_timeout (w : World) evs w' :
  timeout_stable env ->
  steps env w evs w' ->
  _timeout (sock w') = _timeout (sock w) /\
  Forall (fun p => fst p = _timeout (sock w)) (waits evs).
Proof.
  intros Hst. induction 1;
    cbn [after_sendto after_recvfrom after_events after_wait sock
         set_pending _timeout] in *; step_waits.
  - split; [reflexivity | constructor].
  - exact IHsteps.
  - exact IHsteps.
  - destruct e; try discriminate; step_waits; exact IHsteps.
  - unfold next_wait in *. destruct IHsteps as [Ht Hw].
    rewrite Hst in Ht. split; [exact Ht|].
    constructor; [reflexivity|].
    eapply Forall_impl; [|exact Hw].
    intros p Hp. cbn beta in Hp. rewrite Hp. apply Hst.
  - exact IHsteps.
Qed.

Lemma steps_keep_counters (w : World) evs w' :
  counters_quiet env ->
  steps env w evs w' ->
  _readers (sock w') = _readers (sock w) /\
  _writers (sock w') = _writers (sock w).
Proof.
  intros Hq. induction 1;
    cbn [after_sendto after_recvfrom after_events after_wait sock
         set_pending _readers _writers] in *; auto.
  unfold next_wait in *.
  destruct (Hq (calls_wait w) f (_timeout (sock w)) (sock w)) as [Hr Hw].
  rewrite Hr, Hw in IHsteps. exact IHsteps.
Qed.

Lemma steps_waits_bounded (w : World) evs w' :
  timeout_stable env ->
  waits_keep_timeout env ->
  0 <= _timeout (sock w) ->
  steps env w evs w' ->
  Forall (fun p => 0 <= snd p <= fst p) (waits evs).
Proof.
  intros Hst Hk Hpos. induction 1; step_waits;
    cbn [after_sendto after_recvfrom after_events after_wait sock
         set_pending _timeout] in *.
  - constructor.
  - auto.
  - auto.
  - destruct e; try discriminate; step_waits; auto.
  - constructor.
    + apply Hk, Hpos.
    + apply IHsteps. unfold next_wait. rewrite Hst. exact Hpos.
  - auto.
Qed.

(** A bound on the time waited, from a bound on each wait. *)
Lemma total_wait_bounded (t : Z) (evs : list Event) :
  Forall (fun p => fst p = t) (waits evs) ->
  Forall (fun p => 0 <= snd p <= fst p) (waits evs) ->
  0 <= total_wait evs <= Z.of_nat (List.length (waits evs)) * t.
Proof.
  unfold total_wait. induction (waits evs) as [|[t' el] l IH];
    intros Ht Hb; cbn [fold_right List.length].
  - lia.
  - apply Forall_cons_iff in Ht. destruct Ht as [Ht1 Ht2].
    apply Forall_cons_iff in Hb. destruct Hb as [Hb1 Hb2].
    cbn [fst snd] in *. specialize (IH Ht2 Hb2). lia.
Qed.

Lemma leave_events_quiet (handle : option nat) (counter : Z) :
  waits (leave_events handle counter) = [] /\
  transfers (leave_events handle counter) = [].
Proof.
  unfold leave_events.
  destruct (is_null handle || (counter =? 0));
    destruct MBED_CONF_RTOS_PRESENT; split; reflexivity.
Qed.

Lemma transfers_app (a b : list Event) :
  transfers (a ++ b) = transfers a ++ transfers b.
Proof. apply filter_app. Qed.

(** The events of a call of [sendto]: those of the entry, those of the
    loop, those of the exit. *)
Lemma sendto_events fuel address data size (w : World) r w' :
  sendto env fuel address data size w = Some (r, w') ->
  exists w1 evs,
    sendto_loop env fuel address data size (sendto_enter address w)
    = Some (r, w1) /\
    steps env (sendto_enter address w) evs w1 /\
    w' = sendto_leave w1 /\
    events_since w w' =
    (EvLock :: (if is_null (_socket (sock w)) then []
                else [EvStatsState SOCK_OPEN; EvStatsPeer address]))
      ++ evs
      ++ leave_events (_socket (sock w1)) (wrap (_writers (sock w1) - 1)).
Proof.
  rewrite sendto_run.
  destruct (sendto_loop env fuel address data size (sendto_enter address w))
    as [[r1 w1]|] eqn:Hloop; [|discriminate].
  intros H; inversion H; subst r1 w'; clear H.
  destruct (sendto_loop_steps _ _ _ _ _ _ _ Hloop) as [evs Hsteps].
  exists w1, evs. repeat split; auto.
  apply events_since_app. cbn [sendto_leave trace].
  rewrite (steps_trace _ _ _ Hsteps). cbn [sendto_enter trace].
  rewrite <- !app_assoc. reflexivity.
Qed.

(** The events of a call of [recvfrom]. *)
Lemma recvfrom_events fuel address buffer size (w : World) res w' :
  recvfrom env fuel address buffer size w = Some (res, w') ->
  exists w1 evs,
    recvfrom_loop env fuel
      (match address with Some a => a | None => addr_default end)
      buffer size (recvfrom_enter w) = Some (res, w1) /\
    steps env (recvfrom_enter w) evs w1 /\
    w' = recvfrom_leave w1 /\
    events_since w w' =
    (EvLock :: (if is_null (_socket (sock w)) then []
                else [EvStatsState SOCK_OPEN]))
      ++ evs
      ++ leave_events (_socket (sock w1)) (wrap (_readers (sock w1) - 1)).
Proof.
  rewrite recvfrom_run.
  destruct (recvfrom_loop env fuel _ buffer size (recvfrom_enter w))
    as [[r1 w1]|] eqn:Hloop; [|discriminate].
  intros H; inversion H; subst r1 w'; clear H.
  destruct (recvfrom_loop_steps _ _ _ _ _ _ _ Hloop) as [evs Hsteps].
  exists w1, evs. repeat split; auto.
  apply events_since_app. cbn [recvfrom_leave trace].
  rewrite (steps_trace _ _ _ Hsteps). cbn [recvfrom_enter trace].
  rewrite <- !app_assoc. reflexivity.
Qed.

(** With a zero timeout neither loop ever waits. *)
Lemma sendto_loop_zero_timeout address data size :
  forall fuel (w : World) r w',
    sendto_loop env fuel address data size w = Some (r, w') ->
    _timeout (sock w) = 0 ->
    exists evs, trace w' = trace w ++ evs /\ waits evs = [].
Proof.
  apply (sendto_loop_induction address data size
           (fun w _ w' =>
              _timeout (sock w) = 0 ->
              exists evs, trace w' = trace w ++ evs /\ waits evs = [])).
  - intros w _ _. exists []. split; [symmetry; apply app_nil_r | reflexivity].
  - intros w h _ sent _ _. eexists. split.
    + world_fields. rewrite <- app_assoc. reflexivity.
    + reflexivity.
  - intros w h _ sent w1 Hc _ _ Ht. rewrite Ht in Hc. discriminate.
  - intros w h r w' _ sent w1 Hc _ _ _ Ht. rewrite Ht in Hc. discriminate.
  - intros w h r w' _ sent w1 Hc _ _ Ht. rewrite Ht in Hc. discriminate.
Qed.

Lemma recvfrom_loop_zero_timeout size :
  forall fuel (w : World) address buffer res w',
    recvfrom_loop env fuel address buffer size w = Some (res, w') ->
    _timeout (sock w) = 0 ->
    exists evs, trace w' = trace w ++ evs /\ waits evs = [].
Proof.
  apply (recvfrom_loop_induction size
           (fun w _ _ _ w' =>
              _timeout (sock w) = 0 ->
              exists evs, trace w' = trace w ++ evs /\ waits evs = [])).
  - intros w _ _ _ _. exists []. split; [symmetry; apply app_nil_r | reflexivity].
  - intros w address buffer h res w' _ r a' b' _ IH Ht.
    destruct (IH Ht) as (evs & Htr & Hw). eexists. split.
    + rewrite Htr. world_fields. rewrite <- app_assoc. reflexivity.
    + cbn [app]. step_waits. exact Hw.
  - intros w address buffer h _ r a' b' w2 _ _ _. eexists. split.
    + subst w2. world_fields. rewrite <- !app_assoc. reflexivity.
    + reflexivity.
  - intros w address buffer h _ r a' b' w2 _ Hc _ _ Ht.
    rewrite Ht in Hc. discriminate.
  - intros w address buffer h res w' _ r a' b' w2 _ Hc _ _ _ Ht.
    rewrite Ht in Hc. discriminate.
  - intros w address buffer h res w' _ r a' b' w2 _ Hc _ _ Ht.
    rewrite Ht in Hc. discriminate.
Qed.

(** C5.  Non-blocking mode.  On an open socket whose timeout is zero, a
    transfer that the stack answers with [NSAPI_ERROR_WOULD_BLOCK] makes
    [sendto], and [recvfrom] likewise, return [NSAPI_ERROR_WOULD_BLOCK]
    after that one attempt: the call asked the stack once and did not
    wait on the event flags.  More generally no call that starts with a
    zero timeout ever waits on the event flags, whatever the stack
    answers and whatever it returns. *)
Theorem zero_timeout_returns_would_block
        fuel address data dst buffer size (w : World) h :
  _socket (sock w) = Some h ->
  _timeout (sock w) = 0 ->
  NSAPI_ERROR_WOULD_BLOCK < 0 ->
  (socket_sendto env (calls_sendto w) h address data size
   = NSAPI_ERROR_WOULD_BLOCK ->
   exists w',
     sendto env (S fuel) address data size w
     = Some (NSAPI_ERROR_WOULD_BLOCK, w') /\
     List.length (transfers (events_since w w')) = 1%nat /\
     waits (events_since w w') = []) /\
  (rf_ret (socket_recvfrom env (calls_recvfrom w) h size)
   = NSAPI_ERROR_WOULD_BLOCK ->
   exists src buffer' w',
     recvfrom env (S fuel) dst buffer size w
     = Some ((NSAPI_ERROR_WOULD_BLOCK, src, buffer'), w') /\
     List.length (transfers (events_since w w')) = 1%nat /\
     waits (events_since w w') = []) /\
  (forall n r w',
      sendto env n address data size w = Some (r, w') ->
      waits (events_since w w') = []) /\
  (forall n res w',
      recvfrom env n dst buffer size w = Some (res, w') ->
      waits (events_since w w') = []).
Proof.
  intros Hs Ht Hneg. split; [|split; [|split]].
  - intros Hwb. eexists. split; [|split].
    + rewrite sendto_run, sendto_loop_step.
      cbn [sendto_enter sock set_writers _socket _timeout calls_sendto].
      rewrite Hs, Ht. cbv zeta. rewrite Hwb. reflexivity.
    + since_events. rewrite Hs. cbn [is_null app]. step_transfers.
      rewrite (proj2 (leave_events_quiet _ _)). reflexivity.
    + since_events. rewrite Hs. cbn [is_null app]. step_waits.
      apply leave_events_quiet.
  - intros Hwb. do 3 eexists. split; [|split].
    + rewrite recvfrom_run, recvfrom_loop_step.
      cbn [recvfrom_enter sock set_readers _socket _timeout _remote_peer
           calls_recvfrom].
      rewrite Hs, Ht. cbv zeta. rewrite Hwb.
      replace (NSAPI_ERROR_WOULD_BLOCK >=? 0) with false
        by (symmetry; apply geb_negative; lia).
      reflexivity.
    + since_events. rewrite Hs. cbn [is_null app]. step_transfers.
      rewrite (proj2 (leave_events_quiet _ _)). reflexivity.
    + since_events. rewrite Hs. cbn [is_null app]. step_waits.
      apply leave_events_quiet.
  - intros n r w' Hrun.
    destruct (sendto_events _ _ _ _ _ _ _ Hrun)
      as (w1 & evs & Hloop & Hsteps & _ & Hev).
    destruct (sendto_loop_zero_timeout _ _ _ _ _ _ _ Hloop Ht)
      as (evs' & Htr & Hw).
    rewrite (steps_trace _ _ _ Hsteps) in Htr.
    apply app_inv_head in Htr. subst evs'.
    rewrite Hev, Hs, !waits_app, Hw, (proj1 (leave_events_quiet _ _)).
    reflexivity.
  - intros n res w' Hrun.
    destruct (recvfrom_events _ _ _ _ _ _ _ Hrun)
      as (w1 & evs & Hloop & Hsteps & _ & Hev).
    destruct (recvfrom_loop_zero_timeout _ _ _ _ _ _ _ Hloop Ht)
      as (evs' & Htr & Hw).
    rewrite (steps_trace _ _ _ Hsteps) in Htr.
    apply app_inv_head in Htr. subst evs'.
    rewrite Hev, Hs, !waits_app, Hw, (proj1 (leave_events_quiet _ _)).
    reflexivity.
Qed.

(** C6.  A null handle at the check that opens every turn of the loop
    ends the loop with [NSAPI_ERROR_NO_SOCKET] in that very turn: the
    world is the one the check found, so the stack is not called and
    nothing is waited for.  This is so at entry, where the whole call
    then returns [NSAPI_ERROR_NO_SOCKET] without a transfer and without a
    wait, and it is so in the turn after a wait during which another
    thread closed the socket: the call that was parked returns
    [NSAPI_ERROR_NO_SOCKET] from the world it woke up in. *)
Theorem null_handle_returns_no_socket
        fuel address data dst buffer size (w : World) :
  (* the check of the loop *)
  (_socket (sock w) = None ->
   sendto_loop env (S fuel) address data size w
   = Some (NSAPI_ERROR_NO_SOCKET, w) /\
   recvfrom_loop env (S fuel) address buffer size w
   = Some ((NSAPI_ERROR_NO_SOCKET, address, buffer), w)) /\
  (* null at entry *)
  (_socket (sock w) = None ->
   (exists w',
       sendto env (S fuel) address data size w
       = Some (NSAPI_ERROR_NO_SOCKET, w') /\
       transfers (events_since w w') = [] /\
       waits (events_since w w') = []) /\
   (exists src w',
       recvfrom env (S fuel) dst buffer size w
       = Some ((NSAPI_ERROR_NO_SOCKET, src, buffer), w') /\
       transfers (events_since w w') = [] /\
       waits (events_since w w') = [])) /\
  (* closed while parked in sendto *)
  (forall h,
      let w1 := after_sendto env h address data size w in
      _socket (sock w) = Some h ->
      _timeout (sock w) <> 0 ->
      socket_sendto env (calls_sendto w) h address data size
      = NSAPI_ERROR_WOULD_BLOCK ->
      MBED_CONF_RTOS_PRESENT = true ->
      Z.land (wait_flags (next_wait env WRITE_FLAG w1)) osFlagsError = 0 ->
      _socket (sock (after_wait env WRITE_FLAG w1)) = None ->
      sendto_loop env (S (S fuel)) address data size w
      = Some (NSAPI_ERROR_NO_SOCKET, after_wait env WRITE_FLAG w1)) /\
  (* closed while parked in recvfrom *)
  (forall h,
      let w2 := after_events [EvStatsPeer (_remote_peer (sock w))]
                             (after_recvfrom env h size w) in
      _socket (sock w) = Some h ->
      _timeout (sock w) <> 0 ->
      NSAPI_ERROR_WOULD_BLOCK < 0 ->
      rf_ret (socket_recvfrom env (calls_recvfrom w) h size)
      = NSAPI_ERROR_WOULD_BLOCK ->
      MBED_CONF_RTOS_PRESENT = true ->
      Z.land (wait_flags (next_wait env READ_FLAG w2)) osFlagsError = 0 ->
      _socket (sock (after_wait env READ_FLAG w2)) = None ->
      exists src buffer',
        recvfrom_loop env (S (S fuel)) address buffer size w
        = Some ((NSAPI_ERROR_NO_SOCKET, src, buffer'),
                after_wait env READ_FLAG w2)).
Proof.
  split; [|split; [|split]].
  - intros Hs. rewrite sendto_loop_step, recvfrom_loop_step, Hs.
    split; reflexivity.
  - intros Hs. split.
    + eexists. split; [|split].
      * rewrite sendto_run, sendto_loop_step. world_fields.
        rewrite Hs. reflexivity.
      * since_events. rewrite Hs. cbn [is_null app]. step_transfers.
        apply leave_events_quiet.
      * since_events. rewrite Hs. cbn [is_null app]. step_waits.
        apply leave_events_quiet.
    + do 2 eexists. split; [|split].
      * rewrite recvfrom_run, recvfrom_loop_step. world_fields.
        rewrite Hs. reflexivity.
      * since_events. rewrite Hs. cbn [is_null app]. step_transfers.
        apply leave_events_quiet.
      * since_events. rewrite Hs. cbn [is_null app]. step_waits.
        apply leave_events_quiet.
  - intros h w1 Hs Ht Hwb Hrtos Hflag Hclosed.
    rewrite sendto_loop_step, Hs. cbv zeta. fold w1.
    rewrite Hwb, Z.eqb_refl, Hrtos, Hflag.
    replace (0 =? _timeout (sock w)) with false
      by (symmetry; apply Z.eqb_neq; lia).
    cbn [negb orb Z.eqb].
    rewrite sendto_loop_step, Hclosed. reflexivity.
  - intros h w2 Hs Ht Hneg Hwb Hrtos Hflag Hclosed.
    rewrite recvfrom_loop_step, Hs. cbv zeta. fold w2.
    rewrite Hwb.
    rewrite (geb_negative _ Hneg), Z.eqb_refl, Hrtos, Hflag.
    replace (0 =? _timeout (sock w)) with false
      by (symmetry; apply Z.eqb_neq; lia).
    cbn [negb orb andb Z.eqb].
    rewrite recvfrom_loop_step, Hclosed. do 2 eexists. reflexivity.
Qed.

Lemma wrap_increment_decrement (x : Z) :
  0 <= x < 2 ^ counter_bits -> wrap (wrap (x + 1) - 1) = x.
Proof.
  intros Hx. unfold wrap. rewrite Zminus_mod_idemp_l.
  replace (x + 1 - 1) with x by lia. apply Z.mod_small. exact Hx.
Qed.

(** C7.  With the RTOS present, a call of [sendto] that returns has
    decremented [_writers] once, after the loop: the socket it leaves is
    the one at the [break] with [_writers] one less, and when no other
    thread touched the counters meanwhile [_writers] is back at the value
    it had before the call.  The events of the call end with the unlock,
    directly preceded by the setting of [FINISHED_FLAG] if and only if
    the handle is then null or [_writers] is then zero; the flag is set
    nowhere else in the call, so it is not set while the handle is not
    null and other writers are still counted.  The same holds of
    [recvfrom] and [_readers]. *)
Theorem finished_flag_set_when_drained :
  MBED_CONF_RTOS_PRESENT = true ->
  (forall fuel address data size (w : World) r w',
      sendto env fuel address data size w = Some (r, w') ->
      (exists w1,
          sendto_loop env fuel address data size (sendto_enter address w)
          = Some (r, w1) /\
          sock w' = set_writers (wrap (_writers (sock w1) - 1)) (sock w1)) /\
      (exists pre,
          events_since w w' =
          pre ++ (if is_null (_socket (sock w')) || (_writers (sock w') =? 0)
                  then [EvSet FINISHED_FLAG] else [])
              ++ [EvUnlock] /\
          filter is_set_finished pre = []) /\
      (counters_quiet env ->
       0 <= _writers (sock w) < 2 ^ counter_bits ->
       _writers (sock w') = _writers (sock w))) /\
  (forall fuel dst buffer size (w : World) res w',
      recvfrom env fuel dst buffer size w = Some (res, w') ->
      (exists w1,
          recvfrom_loop env fuel
            (match dst with Some a => a | None => addr_default end)
            buffer size (recvfrom_enter w)
          = Some (res, w1) /\
          sock w' = set_readers (wrap (_readers (sock w1) - 1)) (sock w1)) /\
      (exists pre,
          events_since w w' =
          pre ++ (if is_null (_socket (sock w')) || (_readers (sock w') =? 0)
                  then [EvSet FINISHED_FLAG] else [])
              ++ [EvUnlock] /\
          filter is_set_finished pre = []) /\
      (counters_quiet env ->
       0 <= _readers (sock w) < 2 ^ counter_bits ->
       _readers (sock w') = _readers (sock w))).
Proof.
  intros Hrtos. split.
  - intros fuel address data size w r w' Hrun.
    destruct (sendto_events _ _ _ _ _ _ _ Hrun)
      as (w1 & evs & Hloop & Hsteps & Hw' & Hev).
    subst w'. split; [|split].
    + exists w1. split; [exact Hloop | reflexivity].
    + exists ((EvLock :: (if is_null (_socket (sock w)) then []
                          else [EvStatsState SOCK_OPEN; EvStatsPeer address]))
              ++ evs).
      split.
      * rewrite Hev. unfold leave_events. rewrite Hrtos.
        world_fields. rewrite <- !app_assoc. reflexivity.
      * rewrite filter_app, (steps_never_set_finished _ _ _ Hsteps).
        destruct (is_null (_socket (sock w))); reflexivity.
    + intros Hq Hrange. world_fields.
      destruct (steps_keep_counters _ _ _ Hq Hsteps) as [_ Hw].
      rewrite Hw. world_fields. apply wrap_increment_decrement, Hrange.
  - intros fuel dst buffer size w res w' Hrun.
    destruct (recvfrom_events _ _ _ _ _ _ _ Hrun)
      as (w1 & evs & Hloop & Hsteps & Hw' & Hev).
    subst w'. split; [|split].
    + exists w1. split; [exact Hloop | reflexivity].
    + exists ((EvLock :: (if is_null (_socket (sock w)) then []
                          else [EvStatsState SOCK_OPEN]))
              ++ evs).
      split.
      * rewrite Hev. unfold leave_events. rewrite Hrtos.
        world_fields. rewrite <- !app_assoc. reflexivity.
      * rewrite filter_app, (steps_never_set_finished _ _ _ Hsteps).
        destruct (is_null (_socket (sock w))); reflexivity.
    + intros Hq Hrange. world_fields.
      destruct (steps_keep_counters _ _ _ Hq Hsteps) as [Hr _].
      rewrite Hr. world_fields. apply wrap_increment_decrement, Hrange.
Qed.

(** C2, as the code has it.  Every wait of a call of [sendto] or
    [recvfrom] is given the whole configured timeout: nothing is
    deducted for the time already waited in earlier turns of the loop
    (other threads are taken not to change the timeout meanwhile).  So
    the timeout bounds each wait, and the time waited by one call is
    bounded by the configured timeout times the number of its waits. *)
Theorem every_wait_gets_whole_timeout :
  timeout_stable env ->
  (forall fuel address data size (w : World) r w',
      sendto env fuel address data size w = Some (r, w') ->
      Forall (fun p => fst p = _timeout (sock w))
             (waits (events_since w w')) /\
      (waits_keep_timeout env ->
       0 <= _timeout (sock w) ->
       0 <= total_wait (events_since w w')
         <= Z.of_nat (List.length (waits (events_since w w')))
            * _timeout (sock w))) /\
  (forall fuel dst buffer size (w : World) res w',
      recvfrom env fuel dst buffer size w = Some (res, w') ->
      Forall (fun p => fst p = _timeout (sock w))
             (waits (events_since w w')) /\
      (waits_keep_timeout env ->
       0 <= _timeout (sock w) ->
       0 <= total_wait (events_since w w')
         <= Z.of_nat (List.length (waits (events_since w w')))
            * _timeout (sock w))).
Proof.
  intros Hst. split.
  - intros fuel address data size w r w' Hrun.
    destruct (sendto_events _ _ _ _ _ _ _ Hrun)
      as (w1 & evs & _ & Hsteps & _ & Hev).
    assert (Hw : waits (events_since w w') = waits evs).
    { rewrite Hev, !waits_app, (proj1 (leave_events_quiet _ _)), app_nil_r.
      destruct (is_null (_socket (sock w))); reflexivity. }
    assert (Hall : Forall (fun p => fst p = _timeout (sock w))
                          (waits (events_since w w'))).
    { rewrite Hw. apply (steps_keep_timeout _ _ _ Hst Hsteps). }
    split; [exact Hall|]. intros Hk Hpos.
    apply total_wait_bounded; [exact Hall|].
    rewrite Hw. apply (steps_waits_bounded _ _ _ Hst Hk) in Hsteps; auto.
  - intros fuel dst buffer size w res w' Hrun.
    destruct (recvfrom_events _ _ _ _ _ _ _ Hrun)
      as (w1 & evs & _ & Hsteps & _ & Hev).
    assert (Hw : waits (events_since w w') = waits evs).
    { rewrite Hev, !waits_app, (proj1 (leave_events_quiet _ _)), app_nil_r.
      destruct (is_null (_socket (sock w))); reflexivity. }
    assert (Hall : Forall (fun p => fst p = _timeout (sock w))
                          (waits (events_since w w'))).
    { rewrite Hw. apply (steps_keep_timeout _ _ _ Hst Hsteps). }
    split; [exact Hall|]. intros Hk Hpos.
    apply total_wait_bounded; [exact Hall|].
    rewrite Hw. apply (steps_waits_bounded _ _ _ Hst Hk) in Hsteps; auto.
Qed.

(** C3, as the code has it.  Without a connected peer [send] returns
    [NSAPI_ERROR_NO_ADDRESS] and does nothing else: the world is left as
    it was.  [recv] has no such check: it is [recvfrom] with a null
    address pointer, and without a connected peer nothing is filtered,
    so on an open socket the first attempt that the stack does not answer
    with [NSAPI_ERROR_WOULD_BLOCK] is what [recv] returns, after the
    transfer. *)
Theorem send_without_peer_no_address fuel data buffer size (w : World) :
  addr_bool (_remote_peer (sock w)) = false ->
  send env fuel data size w = Some (NSAPI_ERROR_NO_ADDRESS, w) /\
  recv env fuel buffer size w = recvfrom env fuel None buffer size w /\
  (forall h,
      let r := socket_recvfrom env (calls_recvfrom w) h size in
      _socket (sock w) = Some h ->
      rf_ret r <> NSAPI_ERROR_WOULD_BLOCK ->
      exists src buffer' w',
        recv env (S fuel) buffer size w
        = Some ((rf_ret r, src, buffer'), w') /\
        transfers (events_since w w') = [EvRecvfrom h size r]).
Proof.
  intros Hpeer. split; [|split].
  - unfold send. run_udp. rewrite Hpeer. reflexivity.
  - reflexivity.
  - intros h r Hs Hret. do 3 eexists. split.
    + unfold recv. rewrite recvfrom_run, recvfrom_loop_step. world_fields.
      rewrite Hs. cbv zeta. rewrite Hpeer, andb_false_r. fold r.
      cbn [andb].
      replace (NSAPI_ERROR_WOULD_BLOCK =? rf_ret r) with false
        by (symmetry; apply Z.eqb_neq; congruence).
      rewrite orb_true_r. reflexivity.
    + since_events. rewrite Hs. cbn [is_null app]. step_transfers.
      rewrite (proj2 (leave_events_quiet _ _)). reflexivity.
Qed.

(** What the loop of [recvfrom] returns on a connected socket. *)
Lemma recvfrom_loop_returns_peer size :
  NSAPI_ERROR_NO_SOCKET < 0 ->
  NSAPI_ERROR_WOULD_BLOCK < 0 ->
  forall fuel (w : World) address buffer res w',
    recvfrom_loop env fuel address buffer size w = Some (res, w') ->
    0 <= fst (fst res) ->
    addr_bool (_remote_peer (sock w')) = true ->
    addr_neq (_remote_peer (sock w')) (snd (fst res)) = false.
Proof.
  intros Hns Hwb.
  apply (recvfrom_loop_induction size
           (fun w _ _ res w' =>
              0 <= fst (fst res) ->
              addr_bool (_remote_peer (sock w')) = true ->
              addr_neq (_remote_peer (sock w')) (snd (fst res)) = false)).
  - intros w address buffer _ Hn. cbn [fst] in Hn. lia.
  - intros w address buffer h res w' _ r a' b' _ IH. exact IH.
  - intros w address buffer h _ r a' b' w2 Hflt _ Hn Hpeer.
    subst w2. world_fields. cbn [fst snd] in *.
    revert Hpeer. world_fields. intros Hpeer.
    rewrite (geb_nonnegative _ Hn), Hpeer in Hflt. exact Hflt.
  - intros w address buffer h _ r a' b' w2 _ _ _ _ Hn. cbn [fst] in Hn. lia.
  - intros w address buffer h res w' _ r a' b' w2 _ _ _ _ IH. exact IH.
  - intros w address buffer h res w' _ r a' b' w2 _ _ _ IH. exact IH.
Qed.

(** C4.  On a connected socket [recvfrom] returns a byte count only for a
    datagram of the connected peer: whenever the result is not negative
    and [_remote_peer] is set, the address written for the caller does
    not differ from [_remote_peer].  A datagram from another address is
    dropped without a trace: the turn of the loop that received it ends
    at the [continue], and the loop goes on from the world right after
    that receive, where the next thing it does is to ask the stack again;
    nothing is returned, nothing is reported and nothing is waited
    for. *)
Theorem recvfrom_returns_only_peer_datagrams :
  NSAPI_ERROR_NO_SOCKET < 0 ->
  NSAPI_ERROR_WOULD_BLOCK < 0 ->
  (forall fuel dst buffer size (w : World) n src buffer' w',
      recvfrom env fuel dst buffer size w = Some ((n, src, buffer'), w') ->
      0 <= n ->
      addr_bool (_remote_peer (sock w')) = true ->
      addr_neq (_remote_peer (sock w')) src = false) /\
  (forall fuel address buffer size (w : World) h,
      let r := socket_recvfrom env (calls_recvfrom w) h size in
      let address' :=
        match rf_address r with Some a => a | None => address end in
      let buffer' :=
        match rf_buffer r with Some b => b | None => buffer end in
      _socket (sock w) = Some h ->
      0 <= rf_ret r ->
      addr_bool (_remote_peer (sock w)) = true ->
      addr_neq (_remote_peer (sock w)) address' = true ->
      recvfrom_loop env (S fuel) address buffer size w
      = recvfrom_loop env fuel address' buffer' size
                      (after_recvfrom env h size w)).
Proof.
  intros Hns Hwb. split.
  - intros fuel dst buffer size w n src buffer' w' Hrun Hn Hpeer.
    destruct (recvfrom_events _ _ _ _ _ _ _ Hrun)
      as (w1 & evs & Hloop & _ & Hw' & _).
    subst w'. revert Hpeer. world_fields. intros Hpeer.
    apply (recvfrom_loop_returns_peer size Hns Hwb _ _ _ _ _ _ Hloop);
      assumption.
  - intros fuel address buffer size w h r address' buffer' Hs Hn Hpeer Hneq.
    rewrite recvfrom_loop_step, Hs. cbv zeta. fold r. fold address'.
    rewrite (geb_nonnegative _ Hn), Hpeer, Hneq. reflexivity.
Qed.

(** C9.  [UDPSocket::connect] returns [NSAPI_ERROR_OK] for every address
    and from every state.  All it does is store the address in
    [_remote_peer] and report it to the statistics: no call of the stack,
    no wait, no other member touched. *)
Theorem connect_always_ok (address : SocketAddress) (w : World) :
  connect address w =
  Some (NSAPI_ERROR_OK,
        {| sock := set_remote_peer address (sock w);
           calls_sendto := calls_sendto w;
           calls_recvfrom := calls_recvfrom w;
           calls_wait := calls_wait w;
           trace := trace w ++ [EvStatsPeer address;
                                EvStatsState SOCK_CONNECTED] |}).
Proof.
  unfold connect. run_udp. rewrite <- app_assoc. reflexivity.
Qed.

(** C8.  [UDPSocket::listen] returns [NSAPI_ERROR_UNSUPPORTED] whatever
    the backlog; [UDPSocket::accept] returns a null pointer and stores
    [NSAPI_ERROR_UNSUPPORTED] through [error] when [error] is not null.
    Neither changes the socket, calls the stack or waits. *)
Theorem listen_accept_unsupported (backlog : Z) (error : option Z) (w : World) :
  listen backlog w = Some (NSAPI_ERROR_UNSUPPORTED, w) /\
  accept error w =
  Some ((None, match error with
               | Some _ => Some NSAPI_ERROR_UNSUPPORTED
               | None => None
               end), w).
Proof. split; reflexivity. Qed.
End UDPSocketFacts.

(* ===================================================================== *)
(** * UDPSocket on the concrete target                                    *)
(* ===================================================================== *)

(** [signal_after] keeps to the timeout it is given, and the threads of
    [busy_twice] leave the socket alone. *)
Lemma busy_twice_waits_keep_timeout : waits_keep_timeout busy_twice.
Proof.
  intros n f t Ht. cbn [busy_twice wait_any]. unfold signal_after.
  destruct (60 <? t) eqn:E; cbn [wait_elapsed].
  - apply Z.ltb_lt in E. lia.
  - lia.
Qed.

Lemma busy_twice_timeout_stable : timeout_stable busy_twice.
Proof.
  intros n f t s. cbn [busy_twice wait_any]. unfold signal_after.
  destruct (60 <? t); reflexivity.
Qed.

Lemma busy_twice_counters_quiet : counters_quiet busy_twice.
Proof.
  intros n f t s. cbn [busy_twice wait_any]. unfold signal_after.
  destruct (60 <? t); split; reflexivity.
Qed.

(** C2 (what fails).  Timeout 100 ms, a stack that is busy twice, event
    flags signalled 60 ms into each wait: the second wait is given 100 ms
    again, not the 40 ms that are left, and [sendto] has waited 120 ms
    when it returns. *)
Lemma sendto_waits_longer_than_timeout :
  exists w',
    sendto busy_twice 3 (9 : Z) [1; 2; 3] 3 (open_socket 9 100)
    = Some (3, w') /\
    waits (events_since (open_socket 9 100) w') = [(100, 60); (100, 60)] /\
    ~ total_wait (events_since (open_socket 9 100) w')
      <= _timeout (sock (open_socket 9 100)).
Proof.
  eexists. split; [vm_compute; reflexivity|].
  split; [vm_compute; reflexivity|].
  vm_compute. intros H. apply H. reflexivity.
Qed.

(** The same run, seen from the theorem: both waits were given 100 ms, and
    the 120 ms waited are within two times the timeout. *)
Lemma every_wait_gets_whole_timeout_witness :
  exists w',
    sendto busy_twice 3 (9 : Z) [1; 2; 3] 3 (open_socket 9 100)
    = Some (3, w') /\
    Forall (fun p => fst p = 100)
           (waits (events_since (open_socket 9 100) w')) /\
    0 <= total_wait (events_since (open_socket 9 100) w')
      <= Z.of_nat (List.length (waits (events_since (open_socket 9 100) w')))
         * 100.
Proof.
  eexists. split; [vm_compute; reflexivity|].
  destruct (proj1 (every_wait_gets_whole_timeout
                     (N := cortex_m_rtos) busy_twice
                     busy_twice_timeout_stable)
                  3%nat 9 [1; 2; 3] 3 (open_socket 9 100) 3 _
                  ltac:(vm_compute; reflexivity)) as [Hall Hsum].
  split; [exact Hall|].
  apply Hsum; [exact busy_twice_waits_keep_timeout | vm_compute; discriminate].
Defined.

(** C3 (what fails).  No peer is set, and [recv] returns the two bytes of
    the datagram that address 7 sent: the stack was asked, the data was
    transferred, and the result is not [NSAPI_ERROR_NO_ADDRESS]. *)
Lemma recv_without_peer_returns_datagram :
  addr_bool (Netsocket := cortex_m_rtos) (_remote_peer (sock (open_socket 0 100)))
  = false /\
  exists w',
    recv busy_twice 1 [0; 0] 2 (open_socket 0 100)
    = Some ((2, 7, [104; 105]), w') /\
    2 <> NSAPI_ERROR_NO_ADDRESS (Netsocket := cortex_m_rtos) /\
    List.length (transfers (events_since (open_socket 0 100) w')) = 1%nat.
Proof.
  split; [reflexivity|]. eexists. split; [vm_compute; reflexivity|].
  split; [discriminate | vm_compute; reflexivity].
Qed.

(** On the socket without a peer [send] is refused and changes nothing,
    and [recv] hands over the datagram. *)
Lemma send_without_peer_no_address_witness :
  send busy_twice 1 [1; 2] 2 (open_socket 0 100)
  = Some (-3006, open_socket 0 100) /\
  exists src buffer' w',
    recv busy_twice 1 [0; 0] 2 (open_socket 0 100)
    = Some ((2, src, buffer'), w') /\
    transfers (events_since (open_socket 0 100) w')
    = [EvRecvfrom 1 2 (socket_recvfrom busy_twice 0 1 2)].
Proof.
  destruct (send_without_peer_no_address
              (N := cortex_m_rtos) busy_twice 0 [1; 2] [0; 0] 2
              (open_socket 0 100) eq_refl) as (Hsend & _ & Hrecv).
  split; [exact Hsend|].
  apply (Hrecv 1%nat); [reflexivity | discriminate].
Defined.

(** A non-blocking socket on a busy stack: one attempt, no wait. *)
Lemma zero_timeout_returns_would_block_witness :
  (exists w',
      sendto closed_while_parked 1 (9 : Z) [1; 2; 3] 3 (open_socket 9 0)
      = Some (-3001, w') /\
      List.length (transfers (events_since (open_socket 9 0) w')) = 1%nat /\
      waits (events_since (open_socket 9 0) w') = []) /\
  (exists src buffer' w',
      recvfrom closed_while_parked 1 None [0; 0; 0] 3 (open_socket 9 0)
      = Some ((-3001, src, buffer'), w') /\
      List.length (transfers (events_since (open_socket 9 0) w')) = 1%nat /\
      waits (events_since (open_socket 9 0) w') = []).
Proof.
  destruct (zero_timeout_returns_would_block
              (N := cortex_m_rtos) closed_while_parked
              0 9 [1; 2; 3] None [0; 0; 0] 3 (open_socket 9 0) 1%nat
              eq_refl eq_refl eq_refl) as (Hsend & Hrecv & _).
  split; [apply Hsend | apply Hrecv]; reflexivity.
Defined.

(** A closed socket, and a socket closed by another thread while the
    caller waits. *)
Lemma null_handle_returns_no_socket_witness :
  (* null at the check and at entry *)
  (sendto_loop busy_twice 1 (9 : Z) [1; 2; 3] 3 (closed_socket 9 100)
   = Some (-3005, closed_socket 9 100) /\
   exists w',
     sendto busy_twice 1 (9 : Z) [1; 2; 3] 3 (closed_socket 9 100)
     = Some (-3005, w') /\
     transfers (events_since (closed_socket 9 100) w') = [] /\
     waits (events_since (closed_socket 9 100) w') = []) /\
  (* closed while parked *)
  sendto_loop closed_while_parked 2 (9 : Z) [1; 2; 3] 3 (open_socket 9 100)
  = Some (-3005,
          after_wait closed_while_parked WRITE_FLAG
            (after_sendto closed_while_parked 1 9 [1; 2; 3] 3
                          (open_socket 9 100))) /\
  exists src buffer',
    recvfrom_loop closed_while_parked 2 (0 : Z) [0; 0] 2 (open_socket 9 100)
    = Some ((-3005, src, buffer'),
            after_wait closed_while_parked READ_FLAG
              (after_events [EvStatsPeer (N := cortex_m_rtos) 9]
                 (after_recvfrom closed_while_parked 1 2 (open_socket 9 100)))).
Proof.
  split; [|split].
  - destruct (null_handle_returns_no_socket
                (N := cortex_m_rtos) busy_twice
                0 9 [1; 2; 3] None [0; 0] 3 (closed_socket 9 100))
      as (Hcheck & Hentry & _ & _).
    split.
    + apply Hcheck. reflexivity.
    + apply Hentry. reflexivity.
  - destruct (null_handle_returns_no_socket
                (N := cortex_m_rtos) closed_while_parked
                0 9 [1; 2; 3] None [0; 0] 3 (open_socket 9 100))
      as (_ & _ & Hparked & _).
    apply (Hparked 1%nat); try reflexivity. discriminate.
  - destruct (null_handle_returns_no_socket
                (N := cortex_m_rtos) closed_while_parked
                0 0 [1; 2; 3] None [0; 0] 2 (open_socket 9 100))
      as (_ & _ & _ & Hparked).
    apply (Hparked 1%nat); try reflexivity. discriminate.
Defined.

(** The only writer leaves: the flag is set right before the unlock, and
    [_writers] is back at zero. *)
Lemma finished_flag_set_when_drained_witness :
  exists w',
    sendto busy_twice 3 (9 : Z) [1; 2; 3] 3 (open_socket 9 100)
    = Some (3, w') /\
    (exists pre,
        events_since (open_socket 9 100) w'
        = pre ++ [EvSet FINISHED_FLAG] ++ [EvUnlock] /\
        filter is_set_finished pre = []) /\
    _writers (sock w') = 0.
Proof.
  eexists. split; [vm_compute; reflexivity|].
  destruct (proj1 (finished_flag_set_when_drained
                     (N := cortex_m_rtos) busy_twice eq_refl)
                  3%nat 9 [1; 2; 3] 3 (open_socket 9 100) 3 _
                  ltac:(vm_compute; reflexivity)) as (_ & Hflag & Hcount).
  split; [exact Hflag|].
  apply Hcount; [exact busy_twice_counters_quiet | vm_compute; split; congruence].
Defined.

(** A socket connected to address 9: the datagram of address 7 is dropped
    and the next receive follows at once; the datagram of address 9 is
    returned. *)
Lemma recvfrom_returns_only_peer_datagrams_witness :
  (exists w',
      recvfrom spoofed_then_peer 2 None [0; 0; 0] 3 (open_socket 9 100)
      = Some ((3, 9, [1; 2; 3]), w') /\
      addr_neq (Netsocket := cortex_m_rtos) (_remote_peer (sock w')) 9 = false) /\
  recvfrom_loop spoofed_then_peer 2 (0 : Z) [0; 0; 0] 3 (open_socket 9 100)
  = recvfrom_loop spoofed_then_peer 1 (7 : Z) [104; 105] 3
      (after_recvfrom spoofed_then_peer 1 3 (open_socket 9 100)).
Proof.
  destruct (recvfrom_returns_only_peer_datagrams
              (N := cortex_m_rtos) spoofed_then_peer
              ltac:(reflexivity) ltac:(reflexivity)) as [Hret Hdrop].
  split.
  - eexists. split; [vm_compute; reflexivity|].
    eapply (Hret 2%nat None [0; 0; 0] 3 (open_socket 9 100) 3 9 [1; 2; 3]).
    + vm_compute. reflexivity.
    + discriminate.
    + reflexivity.
  - apply (Hdrop 1%nat 0 [0; 0; 0] 3 (open_socket 9 100) 1%nat).
    + reflexivity.
    + discriminate.
    + reflexivity.
    + reflexivity.
Defined.

(* ===================================================================== *)
(** * More on UDPSocket                                                   *)
(* ===================================================================== *)

(** Moves [wait_flag_words] past the first event of a trace. *)
Ltac step_words :=
  repeat match goal with
    | |- context [wait_flag_words (EvWait ?f ?t ?fl ?el :: ?l)] =>
        change (wait_flag_words (EvWait f t fl el :: l))
          with (fl :: wait_flag_words l)
    | |- context [wait_flag_words (?e :: ?l)] =>
        change (wait_flag_words (e :: l)) with (wait_flag_words l)
    | |- context [wait_flag_words []] =>
        change (wait_flag_words []) with (@nil Z)
    end.

Section UDPSocketMoreFacts.
Context {N : Netsocket} (env : Env).

(** The events of a call, from any account of the events of its loop. *)
Lemma sendto_events_from_loop fuel address data size (w : World) r w' :
  sendto env fuel address data size w = Some (r, w') ->
  exists w1,
    sendto_loop env fuel address data size (sendto_enter address w)
    = Some (r, w1) /\
    w' = sendto_leave w1 /\
    forall evs,
      trace w1 = trace (sendto_enter address w) ++ evs ->
      events_since w w' =
      (EvLock :: (if is_null (_socket (sock w)) then []
                  else [EvStatsState SOCK_OPEN; EvStatsPeer address]))
        ++ evs
        ++ leave_events (_socket (sock w1)) (wrap (_writers (sock w1) - 1)).
Proof.
  intros Hrun.
  destruct (sendto_events _ _ _ _ _ _ _ _ Hrun)
    as (w1 & evs0 & Hloop & Hsteps & Hw' & Hev).
  exists w1. split; [exact Hloop|]. split; [exact Hw'|].
  intros evs Htr. rewrite (steps_trace _ _ _ _ Hsteps) in Htr.
  apply app_inv_head in Htr. subst evs0. exact Hev.
Qed.

Lemma recvfrom_events_from_loop fuel address buffer size (w : World) res w' :
  recvfrom env fuel address buffer size w = Some (res, w') ->
  exists w1,
    recvfrom_loop env fuel
      (match address with Some a => a | None => addr_default end)
      buffer size (recvfrom_enter w) = Some (res, w1) /\
    w' = recvfrom_leave w1 /\
    forall evs,
      trace w1 = trace (recvfrom_enter w) ++ evs ->
      events_since w w' =
      (EvLock :: (if is_null (_socket (sock w)) then []
                  else [EvStatsState SOCK_OPEN]))
        ++ evs
        ++ leave_events (_socket (sock w1)) (wrap (_readers (sock w1) - 1)).
Proof.
  intros Hrun.
  destruct (recvfrom_events _ _ _ _ _ _ _ _ Hrun)
    as (w1 & evs0 & Hloop & Hsteps & Hw' & Hev).
  exists w1. split; [exact Hloop|]. split; [exact Hw'|].
  intros evs Htr. rewrite (steps_trace _ _ _ _ Hsteps) in Htr.
  apply app_inv_head in Htr. subst evs0. exact Hev.
Qed.




Lemma leave_events_set_finished (handle : option nat) (counter : Z)
      (P : Event -> Prop) :
  P (EvSet FINISHED_FLAG) -> P EvUnlock ->
  Forall P (leave_events handle counter).
Proof.
  intros Hset Hunlock. unfold leave_events.
  destruct (is_null handle || (counter =? 0));
    destruct MBED_CONF_RTOS_PRESENT; repeat constructor; assumption.
Qed.

Lemma sendto_loop_only_sends address data size :
  forall fuel (w : World) r w',
    sendto_loop env fuel address data size w = Some (r, w') ->
    exists evs,
      trace w' = trace w ++ evs /\
      Forall (sendto_event address data size) evs.
Proof.
  apply (sendto_loop_induction env address data size
           (fun w _ w' =>
              exists evs,
                trace w' = trace w ++ evs /\
                Forall (sendto_event address data size) evs)).
  - intros w _. exists []. split; [symmetry; apply app_nil_r | constructor].
  - intros w h _ sent _. eexists. split.
    + world_fields. rewrite <- app_assoc. reflexivity.
    + repeat constructor.
  - intros w h _ sent w1 _ _ _. eexists. split.
    + subst w1. world_fields. rewrite <- app_assoc. reflexivity.
    + repeat constructor.
  - intros w h r w' _ sent w1 _ _ _ (evs & Htr & Hall). eexists. split.
    + rewrite Htr. subst w1. world_fields. rewrite <- !app_assoc. reflexivity.
    + cbn [app]. repeat (constructor; [cbn; auto|]). exact Hall.
  - intros w h r w' _ sent w1 _ _ (evs & Htr & Hall). eexists. split.
    + rewrite Htr. subst w1. world_fields. rewrite <- !app_assoc. reflexivity.
    + cbn [app]. repeat (constructor; [cbn; auto|]). exact Hall.
Qed.

Lemma recvfrom_loop_only_receives size :
  forall fuel (w : World) address buffer res w',
    recvfrom_loop env fuel address buffer size w = Some (res, w') ->
    exists evs,
      trace w' = trace w ++ evs /\ Forall (recvfrom_event size) evs.
Proof.
  apply (recvfrom_loop_induction env size
           (fun w _ _ _ w' =>
              exists evs,
                trace w' = trace w ++ evs /\
                Forall (recvfrom_event size) evs)).
  - intros w _ _ _. exists []. split; [symmetry; apply app_nil_r | constructor].
  - intros w address buffer h res w' _ r a' b' _ (evs & Htr & Hall).
    eexists. split.
    + rewrite Htr. world_fields. rewrite <- app_assoc. reflexivity.
    + cbn [app]. constructor; [reflexivity | exact Hall].
  - intros w address buffer h _ r a' b' w2 _ _. eexists. split.
    + subst w2. world_fields. rewrite <- !app_assoc. reflexivity.
    + repeat constructor.
  - intros w address buffer h _ r a' b' w2 _ _ _ _. eexists. split.
    + subst w2. world_fields. rewrite <- !app_assoc. reflexivity.
    + repeat constructor.
  - intros w address buffer h res w' _ r a' b' w2 _ _ _ _ (evs & Htr & Hall).
    eexists. split.
    + rewrite Htr. subst w2. world_fields. rewrite <- !app_assoc. reflexivity.
    + cbn [app]. repeat (constructor; [cbn; auto|]). exact Hall.
  - intros w address buffer h res w' _ r a' b' w2 _ _ _ (evs & Htr & Hall).
    eexists. split.
    + rewrite Htr. subst w2. world_fields. rewrite <- !app_assoc. reflexivity.
    + cbn [app]. repeat (constructor; [cbn; auto|]). exact Hall.
Qed.

Lemma sendto_only_sends fuel address data size (w : World) r w' :
  sendto env fuel address data size w = Some (r, w') ->
  Forall (sendto_event address data size) (events_since w w').
Proof.
  intros Hrun.
  destruct (sendto_events_from_loop _ _ _ _ _ _ _ Hrun)
    as (w1 & Hloop & _ & Hev).
  destruct (sendto_loop_only_sends _ _ _ _ _ _ _ Hloop) as (evs & Htr & Hall).
  rewrite (Hev evs Htr). apply Forall_app. split.
  - destruct (is_null (_socket (sock w))); repeat constructor.
  - apply Forall_app. split; [exact Hall|].
    apply leave_events_set_finished; cbn; auto.
Qed.

(** X9.  What a call asks of its surroundings.  Every transfer of a call
    of [sendto] is a [socket_sendto] of the caller's datagram to the
    caller's address, retries included; it never calls [socket_recvfrom]
    and waits for no flag but [WRITE_FLAG].  Every transfer of a call of
    [recvfrom] is a [socket_recvfrom] of the caller's size; it never calls
    [socket_sendto] and waits for no flag but [READ_FLAG].  The only flag
    either of them sets is [FINISHED_FLAG]. *)
Theorem calls_ask_only_for_their_transfer
        fuel address data dst buffer size (w : World) :
  (forall r w',
      sendto env fuel address data size w = Some (r, w') ->
      Forall (sendto_event address data size) (events_since w w')) /\
  (forall res w',
      recvfrom env fuel dst buffer size w = Some (res, w') ->
      Forall (recvfrom_event size) (events_since w w')).
Proof.
  split.
  - intros r w'. apply sendto_only_sends.
  - intros res w' Hrun.
    destruct (recvfrom_events_from_loop _ _ _ _ _ _ _ Hrun)
      as (w1 & Hloop & _ & Hev).
    destruct (recvfrom_loop_only_receives _ _ _ _ _ _ _ Hloop)
      as (evs & Htr & Hall).
    rewrite (Hev evs Htr). apply Forall_app. split.
    + destruct (is_null (_socket (sock w))); repeat constructor.
    + apply Forall_app. split; [exact Hall|].
      apply leave_events_set_finished; cbn; auto.
Qed.
Lemma wait_flag_words_app (a b : list Event) :
  wait_flag_words (a ++ b) = wait_flag_words a ++ wait_flag_words b.
Proof. unfold wait_flag_words. apply flat_map_app. Qed.

Lemma leave_events_no_wait_words (handle : option nat) (counter : Z) :
  wait_flag_words (leave_events handle counter) = [].
Proof.
  unfold leave_events.
  destruct (is_null handle || (counter =? 0));
    destruct MBED_CONF_RTOS_PRESENT; reflexivity.
Qed.

Lemma sendto_loop_would_block address data size :
  timeout_stable env ->
  NSAPI_ERROR_WOULD_BLOCK <> NSAPI_ERROR_NO_SOCKET ->
  forall fuel (w : World) r w',
    sendto_loop env fuel address data size w = Some (r, w') ->
    _timeout (sock w) <> 0 ->
    r = NSAPI_ERROR_WOULD_BLOCK ->
    exists evs fls fl,
      trace w' = trace w ++ evs /\
      wait_flag_words evs = fls ++ [fl] /\
      Z.land fl osFlagsError <> 0.
Proof.
  intros Hst Hdiff.
  apply (sendto_loop_induction env address data size
           (fun w r w' =>
              _timeout (sock w) <> 0 ->
              r = NSAPI_ERROR_WOULD_BLOCK ->
              exists evs fls fl,
                trace w' = trace w ++ evs /\
                wait_flag_words evs = fls ++ [fl] /\
                Z.land fl osFlagsError <> 0)).
  - intros w _ _ Hr. congruence.
  - intros w h _ sent Hc Ht Hr. exfalso.
    apply orb_true_iff in Hc. destruct Hc as [Hc|Hc].
    + apply Z.eqb_eq in Hc. congruence.
    + apply negb_true_iff, Z.eqb_neq in Hc. congruence.
  - intros w h _ sent w1 _ _ Hf _ _.
    exists [EvSendto h address data size sent; EvUnlock;
            EvWait WRITE_FLAG (_timeout (sock w1))
                   (wait_flags (next_wait env WRITE_FLAG w1))
                   (wait_elapsed (next_wait env WRITE_FLAG w1));
            EvLock],
      [], (wait_flags (next_wait env WRITE_FLAG w1)).
    split; [|split].
    + subst w1. world_fields. rewrite <- app_assoc. reflexivity.
    + reflexivity.
    + apply Z.eqb_neq. exact Hf.
  - intros w h r w' _ sent w1 _ _ _ IH Ht Hr.
    destruct IH as (evs & fls & fl & Htr & Hw & Hfl).
    + subst w1. world_fields. unfold next_wait. rewrite Hst. exact Ht.
    + exact Hr.
    + eexists _, (_ :: fls), fl. split; [|split].
      * rewrite Htr. subst w1. world_fields. rewrite <- !app_assoc.
        reflexivity.
      * cbn [app]. step_words. rewrite Hw. reflexivity.
      * exact Hfl.
  - intros w h r w' _ sent w1 _ _ IH Ht Hr.
    destruct (IH Ht Hr) as (evs & fls & fl & Htr & Hw & Hfl).
    eexists _, fls, fl. split; [|split].
    + rewrite Htr. subst w1. world_fields. rewrite <- !app_assoc.
      reflexivity.
    + cbn [app]. step_words. exact Hw.
    + exact Hfl.
Qed.

Lemma recvfrom_loop_would_block size :
  timeout_stable env ->
  NSAPI_ERROR_WOULD_BLOCK <> NSAPI_ERROR_NO_SOCKET ->
  forall fuel (w : World) address buffer res w',
    recvfrom_loop env fuel address buffer size w = Some (res, w') ->
    _timeout (sock w) <> 0 ->
    fst (fst res) = NSAPI_ERROR_WOULD_BLOCK ->
    exists evs fls fl,
      trace w' = trace w ++ evs /\
      wait_flag_words evs = fls ++ [fl] /\
      Z.land fl osFlagsError <> 0.
Proof.
  intros Hst Hdiff.
  apply (recvfrom_loop_induction env size
           (fun w _ _ res w' =>
              _timeout (sock w) <> 0 ->
              fst (fst res) = NSAPI_ERROR_WOULD_BLOCK ->
              exists evs fls fl,
                trace w' = trace w ++ evs /\
                wait_flag_words evs = fls ++ [fl] /\
                Z.land fl osFlagsError <> 0)).
  - intros w address buffer _ _ Hr. cbn [fst] in Hr. congruence.
  - intros w address buffer h res w' _ r a' b' _ IH Ht Hr.
    destruct (IH Ht Hr) as (evs & fls & fl & Htr & Hw & Hfl).
    eexists _, fls, fl. split; [|split].
    + rewrite Htr. world_fields. rewrite <- !app_assoc. reflexivity.
    + cbn [app]. step_words. exact Hw.
    + exact Hfl.
  - intros w address buffer h _ r a' b' w2 _ Hc Ht Hr. exfalso.
    cbn [fst] in Hr.
    apply orb_true_iff in Hc. destruct Hc as [Hc|Hc].
    + apply Z.eqb_eq in Hc. congruence.
    + apply negb_true_iff, Z.eqb_neq in Hc. congruence.
  - intros w address buffer h _ r a' b' w2 _ _ _ Hf _ _.
    eexists _, [], (wait_flags (next_wait env READ_FLAG w2)).
    split; [|split].
    + subst w2. world_fields. rewrite <- !app_assoc. reflexivity.
    + reflexivity.
    + apply Z.eqb_neq. exact Hf.
  - intros w address buffer h res w' _ r a' b' w2 _ _ _ _ IH Ht Hr.
    destruct IH as (evs & fls & fl & Htr & Hw & Hfl).
    + subst w2. world_fields. unfold next_wait. rewrite Hst. exact Ht.
    + exact Hr.
    + eexists _, (_ :: fls), fl. split; [|split].
      * rewrite Htr. subst w2. world_fields. rewrite <- !app_assoc.
        reflexivity.
      * cbn [app]. step_words. rewrite Hw. reflexivity.
      * exact Hfl.
  - intros w address buffer h res w' _ r a' b' w2 _ _ _ IH Ht Hr.
    destruct (IH Ht Hr) as (evs & fls & fl & Htr & Hw & Hfl).
    eexists _, fls, fl. split; [|split].
    + rewrite Htr. subst w2. world_fields. rewrite <- !app_assoc.
      reflexivity.
    + cbn [app]. step_words. exact Hw.
    + exact Hfl.
Qed.

(** X10.  On a blocking socket (the timeout is not zero and no other
    thread changes it) [NSAPI_ERROR_WOULD_BLOCK] is never the answer of
    the stack passed on: a call of [sendto] or [recvfrom] returns it only
    when the last wait of the call came back with the error bit set, that
    is, when the wait expired or failed. *)
Theorem blocking_call_would_block_only_after_failed_wait
        fuel address data dst buffer size (w : World) :
  timeout_stable env ->
  NSAPI_ERROR_WOULD_BLOCK <> NSAPI_ERROR_NO_SOCKET ->
  _timeout (sock w) <> 0 ->
  (forall w',
      sendto env fuel address data size w
      = Some (NSAPI_ERROR_WOULD_BLOCK, w') ->
      exists fls fl,
        wait_flag_words (events_since w w') = fls ++ [fl] /\
        Z.land fl osFlagsError <> 0) /\
  (forall src buffer' w',
      recvfrom env fuel dst buffer size w
      = Some ((NSAPI_ERROR_WOULD_BLOCK, src, buffer'), w') ->
      exists fls fl,
        wait_flag_words (events_since w w') = fls ++ [fl] /\
        Z.land fl osFlagsError <> 0).
Proof.
  intros Hst Hdiff Ht. split.
  - intros w' Hrun.
    destruct (sendto_events_from_loop _ _ _ _ _ _ _ Hrun)
      as (w1 & Hloop & _ & Hev).
    destruct (sendto_loop_would_block _ _ _ Hst Hdiff _ _ _ _ Hloop Ht eq_refl)
      as (evs & fls & fl & Htr & Hw & Hfl).
    exists fls, fl. split; [|exact Hfl].
    rewrite (Hev evs Htr), !wait_flag_words_app, Hw,
      leave_events_no_wait_words, app_nil_r.
    destruct (is_null (_socket (sock w))); reflexivity.
  - intros src buffer' w' Hrun.
    destruct (recvfrom_events_from_loop _ _ _ _ _ _ _ Hrun)
      as (w1 & Hloop & _ & Hev).
    destruct (recvfrom_loop_would_block _ Hst Hdiff _ _ _ _ _ _ Hloop Ht eq_refl)
      as (evs & fls & fl & Htr & Hw & Hfl).
    exists fls, fl. split; [|exact Hfl].
    rewrite (Hev evs Htr), !wait_flag_words_app, Hw,
      leave_events_no_wait_words, app_nil_r.
    destruct (is_null (_socket (sock w))); reflexivity.
Qed.
Lemma sendto_loop_without_rtos address data size :
  MBED_CONF_RTOS_PRESENT = false ->
  forall fuel (w : World) r w',
    sendto_loop env fuel address data size w = Some (r, w') ->
    exists evs,
      trace w' = trace w ++ evs /\
      filter uses_event_flag evs = [] /\
      (_timeout (sock w) <> 0 ->
       r = NSAPI_ERROR_NO_SOCKET \/ r <> NSAPI_ERROR_WOULD_BLOCK).
Proof.
  intros Hbare.
  apply (sendto_loop_induction env address data size
           (fun w r w' =>
              exists evs,
                trace w' = trace w ++ evs /\
                filter uses_event_flag evs = [] /\
                (_timeout (sock w) <> 0 ->
                 r = NSAPI_ERROR_NO_SOCKET \/ r <> NSAPI_ERROR_WOULD_BLOCK))).
  - intros w _. exists []. split; [symmetry; apply app_nil_r|].
    split; [reflexivity | auto].
  - intros w h _ sent Hc. eexists. split; [|split].
    + world_fields. rewrite <- app_assoc. reflexivity.
    + reflexivity.
    + intros Ht. right.
      apply orb_true_iff in Hc. destruct Hc as [Hc|Hc].
      * apply Z.eqb_eq in Hc. congruence.
      * apply negb_true_iff, Z.eqb_neq in Hc. congruence.
  - intros w h _ sent w1 _ Hr. congruence.
  - intros w h r w' _ sent w1 _ Hr. congruence.
  - intros w h r w' _ sent w1 _ _ (evs & Htr & Hflt & Hres).
    eexists. split; [|split].
    + rewrite Htr. subst w1. world_fields. rewrite <- !app_assoc.
      reflexivity.
    + cbn [app filter uses_event_flag]. exact Hflt.
    + exact Hres.
Qed.

Lemma recvfrom_loop_without_rtos size :
  MBED_CONF_RTOS_PRESENT = false ->
  forall fuel (w : World) address buffer res w',
    recvfrom_loop env fuel address buffer size w = Some (res, w') ->
    exists evs,
      trace w' = trace w ++ evs /\
      filter uses_event_flag evs = [] /\
      (_timeout (sock w) <> 0 ->
       fst (fst res) = NSAPI_ERROR_NO_SOCKET
       \/ fst (fst res) <> NSAPI_ERROR_WOULD_BLOCK).
Proof.
  intros Hbare.
  apply (recvfrom_loop_induction env size
           (fun w _ _ res w' =>
              exists evs,
                trace w' = trace w ++ evs /\
                filter uses_event_flag evs = [] /\
                (_timeout (sock w) <> 0 ->
                 fst (fst res) = NSAPI_ERROR_NO_SOCKET
                 \/ fst (fst res) <> NSAPI_ERROR_WOULD_BLOCK))).
  - intros w address buffer _. exists []. split; [symmetry; apply app_nil_r|].
    split; [reflexivity | auto].
  - intros w address buffer h res w' _ r a' b' _ (evs & Htr & Hflt & Hres).
    eexists. split; [|split].
    + rewrite Htr. world_fields. rewrite <- !app_assoc. reflexivity.
    + cbn [app filter uses_event_flag]. exact Hflt.
    + exact Hres.
  - intros w address buffer h _ r a' b' w2 _ Hc. eexists. split; [|split].
    + subst w2. world_fields. rewrite <- !app_assoc. reflexivity.
    + reflexivity.
    + intros Ht. right. cbn [fst].
      apply orb_true_iff in Hc. destruct Hc as [Hc|Hc].
      * apply Z.eqb_eq in Hc. congruence.
      * apply negb_true_iff, Z.eqb_neq in Hc. congruence.
  - intros w address buffer h _ r a' b' w2 _ _ Hr. congruence.
  - intros w address buffer h res w' _ r a' b' w2 _ _ Hr. congruence.
  - intros w address buffer h res w' _ r a' b' w2 _ _ _ (evs & Htr & Hflt & Hres).
    eexists. split; [|split].
    + rewrite Htr. subst w2. world_fields. rewrite <- !app_assoc.
      reflexivity.
    + cbn [app filter uses_event_flag]. exact Hflt.
    + exact Hres.
Qed.

(** X11.  The build without [MBED_CONF_RTOS_PRESENT].  A call of [sendto]
    or [recvfrom] never touches the event flags: it neither waits nor sets
    [FINISHED_FLAG].  On a socket whose timeout is not zero the timeout is
    not used at all: the call goes on asking the stack, releasing and
    taking the lock between two attempts, and when it returns the result
    is [NSAPI_ERROR_NO_SOCKET] or an answer of the stack other than
    [NSAPI_ERROR_WOULD_BLOCK]. *)
Theorem without_rtos_no_flags_and_no_timeout
        fuel address data dst buffer size (w : World) :
  MBED_CONF_RTOS_PRESENT = false ->
  (forall r w',
      sendto env fuel address data size w = Some (r, w') ->
      filter uses_event_flag (events_since w w') = [] /\
      (_timeout (sock w) <> 0 ->
       r = NSAPI_ERROR_NO_SOCKET \/ r <> NSAPI_ERROR_WOULD_BLOCK)) /\
  (forall n src buffer' w',
      recvfrom env fuel dst buffer size w = Some ((n, src, buffer'), w') ->
      filter uses_event_flag (events_since w w') = [] /\
      (_timeout (sock w) <> 0 ->
       n = NSAPI_ERROR_NO_SOCKET \/ n <> NSAPI_ERROR_WOULD_BLOCK)).
Proof.
  intros Hbare. split.
  - intros r w' Hrun.
    destruct (sendto_events_from_loop _ _ _ _ _ _ _ Hrun)
      as (w1 & Hloop & _ & Hev).
    destruct (sendto_loop_without_rtos _ _ _ Hbare _ _ _ _ Hloop)
      as (evs & Htr & Hflt & Hres).
    split; [|exact Hres].
    rewrite (Hev evs Htr), !filter_app, Hflt.
    unfold leave_events. rewrite Hbare.
    destruct (is_null (_socket (sock w)));
      destruct (is_null (_socket (sock w1)) || _); reflexivity.
  - intros n src buffer' w' Hrun.
    destruct (recvfrom_events_from_loop _ _ _ _ _ _ _ Hrun)
      as (w1 & Hloop & _ & Hev).
    destruct (recvfrom_loop_without_rtos _ Hbare _ _ _ _ _ _ Hloop)
      as (evs & Htr & Hflt & Hres).
    split; [|exact Hres].
    rewrite (Hev evs Htr), !filter_app, Hflt.
    unfold leave_events. rewrite Hbare.
    destruct (is_null (_socket (sock w)));
      destruct (is_null (_socket (sock w1)) || _); reflexivity.
Qed.

Lemma sendto_loop_retries address data size h :
  MBED_CONF_RTOS_PRESENT = true ->
  nobody_else env ->
  forall (k : nat) (w : World),
    _socket (sock w) = Some h ->
    _timeout (sock w) <> 0 ->
    (forall n, Z.land (wait_flags (wait_any env n WRITE_FLAG (_timeout (sock w))))
                      osFlagsError = 0) ->
    (forall i, (i < k)%nat ->
               socket_sendto env (calls_sendto w + i) h address data size
               = NSAPI_ERROR_WOULD_BLOCK) ->
    socket_sendto env (calls_sendto w + k) h address data size
    <> NSAPI_ERROR_WOULD_BLOCK ->
    exists w1 evs,
      sendto_loop env (S k) address data size w
      = Some (socket_sendto env (calls_sendto w + k) h address data size, w1) /\
      trace w1 = trace w ++ evs /\
      List.length (transfers evs) = S k /\
      List.length (waits evs) = k.
Proof.
  intros Hrtos Halone.
  induction k as [|k IH]; intros w Hs Ht Hflags Hbusy Hlast;
    rewrite sendto_loop_step, Hs; cbv zeta.
  - rewrite Nat.add_0_r in *.
    replace (NSAPI_ERROR_WOULD_BLOCK
             =? socket_sendto env (calls_sendto w) h address data size)
      with false by (symmetry; apply Z.eqb_neq; congruence).
    rewrite orb_true_r. eexists _, _. split; [reflexivity|]. split.
    + world_fields. rewrite <- app_assoc. reflexivity.
    + split; reflexivity.
  - pose proof (Hbusy 0%nat ltac:(lia)) as H0. rewrite Nat.add_0_r in H0.
    rewrite H0, Z.eqb_refl, Hrtos.
    replace (0 =? _timeout (sock w)) with false
      by (symmetry; apply Z.eqb_neq; congruence).
    cbn [orb negb].
    set (w1 := after_sendto env h address data size w).
    assert (Hsock : sock (after_wait env WRITE_FLAG w1) = set_pending 0 (sock w)).
    { subst w1. world_fields. apply Halone. }
    assert (Hf : Z.land (wait_flags (next_wait env WRITE_FLAG w1)) osFlagsError = 0).
    { subst w1. unfold next_wait. world_fields. apply Hflags. }
    rewrite Hf. cbn [Z.eqb negb].
    destruct (IH (after_wait env WRITE_FLAG w1)) as (w2 & evs & Hrun & Htr & Hn & Hm).
    + rewrite Hsock. exact Hs.
    + rewrite Hsock. exact Ht.
    + rewrite Hsock. exact Hflags.
    + intros i Hi. subst w1. world_fields.
      replace (S (calls_sendto w) + i)%nat with (calls_sendto w + S i)%nat by lia.
      apply Hbusy. lia.
    + subst w1. world_fields.
      replace (S (calls_sendto w) + k)%nat with (calls_sendto w + S k)%nat by lia.
      exact Hlast.
    + revert Hrun. subst w1. world_fields.
      replace (S (calls_sendto w) + k)%nat with (calls_sendto w + S k)%nat by lia.
      intros Hrun. eexists _, _. split; [exact Hrun|]. split.
      * rewrite Htr. world_fields. rewrite <- !app_assoc. reflexivity.
      * cbn [app]. step_transfers. step_waits. cbn [List.length].
        split; congruence.
Qed.

(** X12.  A blocking [sendto] retries until the stack takes the datagram.
    With the RTOS, on an open socket with a timeout other than zero that no
    other thread touches: if the stack answers the next [k] attempts with
    [NSAPI_ERROR_WOULD_BLOCK] and each wait is ended by its flag, the call
    returns what the stack answers to attempt [k + 1], after exactly
    [k + 1] transfers and [k] waits. *)
Theorem sendto_retries_until_stack_answers
        (k : nat) address data size (w : World) h :
  MBED_CONF_RTOS_PRESENT = true ->
  nobody_else env ->
  _socket (sock w) = Some h ->
  _timeout (sock w) <> 0 ->
  (forall n, Z.land (wait_flags (wait_any env n WRITE_FLAG (_timeout (sock w))))
                    osFlagsError = 0) ->
  (forall i, (i < k)%nat ->
             socket_sendto env (calls_sendto w + i) h address data size
             = NSAPI_ERROR_WOULD_BLOCK) ->
  socket_sendto env (calls_sendto w + k) h address data size
  <> NSAPI_ERROR_WOULD_BLOCK ->
  exists w',
    sendto env (S k) address data size w
    = Some (socket_sendto env (calls_sendto w + k) h address data size, w') /\
    List.length (transfers (events_since w w')) = S k /\
    List.length (waits (events_since w w')) = k.
Proof.
  intros Hrtos Halone Hs Ht Hflags Hbusy Hlast.
  destruct (sendto_loop_retries address data size h Hrtos Halone k
              (sendto_enter address w) Hs Ht Hflags Hbusy Hlast)
    as (w1 & evs & Hloop & Htr & Hn & Hm).
  revert Hloop. world_fields. intros Hloop.
  assert (Hrun : sendto env (S k) address data size w
                 = Some (socket_sendto env (calls_sendto w + k) h address
                                       data size, sendto_leave w1)).
  { rewrite sendto_run, Hloop. reflexivity. }
  exists (sendto_leave w1). split; [exact Hrun|].
  destruct (sendto_events_from_loop _ _ _ _ _ _ _ Hrun)
    as (w1' & Hloop' & Hw' & Hev).
  rewrite Hloop in Hloop'. inversion Hloop'; subst w1'.
  rewrite (Hev evs Htr), Hs. cbn [is_null app]. step_transfers. step_waits.
  rewrite transfers_app, waits_app, !length_app.
  rewrite (proj1 (leave_events_quiet _ _)), (proj2 (leave_events_quiet _ _)).
  cbn [List.length]. lia.
Qed.
Lemma steps_alone (w : World) evs w' :
  nobody_else env ->
  steps env w evs w' ->
  _socket (sock w') = _socket (sock w) /\
  _remote_peer (sock w') = _remote_peer (sock w) /\
  _timeout (sock w') = _timeout (sock w) /\
  _readers (sock w') = _readers (sock w) /\
  _writers (sock w') = _writers (sock w) /\
  (_pending (sock w') = _pending (sock w) \/ _pending (sock w') = 0).
Proof.
  intros Halone. induction 1.
  - repeat split; auto.
  - revert IHsteps. world_fields. intuition.
  - revert IHsteps. world_fields. intuition.
  - revert IHsteps. world_fields. intuition.
  - revert IHsteps. world_fields. unfold next_wait. rewrite Halone. intuition.
  - revert IHsteps. world_fields. intuition.
Qed.


(** X13.  What a call leaves behind.  When no other thread touches the
    socket meanwhile, a call of [sendto] or [recvfrom] that returns leaves
    the handle, the connected peer, the timeout and both counters as it
    found them (its own counter went up by one and down by one); the only
    member it may have changed is [_pending], which it resets to zero. *)
Theorem call_leaves_socket_as_found
        fuel address data dst buffer size (w : World) :
  nobody_else env ->
  0 <= _readers (sock w) < 2 ^ counter_bits ->
  0 <= _writers (sock w) < 2 ^ counter_bits ->
  (forall r w',
      sendto env fuel address data size w = Some (r, w') ->
      _socket (sock w') = _socket (sock w) /\
      _remote_peer (sock w') = _remote_peer (sock w) /\
      _timeout (sock w') = _timeout (sock w) /\
      _readers (sock w') = _readers (sock w) /\
      _writers (sock w') = _writers (sock w) /\
      (_pending (sock w') = _pending (sock w) \/ _pending (sock w') = 0)) /\
  (forall res w',
      recvfrom env fuel dst buffer size w = Some (res, w') ->
      _socket (sock w') = _socket (sock w) /\
      _remote_peer (sock w') = _remote_peer (sock w) /\
      _timeout (sock w') = _timeout (sock w) /\
      _readers (sock w') = _readers (sock w) /\
      _writers (sock w') = _writers (sock w) /\
      (_pending (sock w') = _pending (sock w) \/ _pending (sock w') = 0)).
Proof.
  intros Halone Hr Hw. split.
  - intros r w' Hrun.
    destruct (sendto_events _ _ _ _ _ _ _ _ Hrun)
      as (w1 & evs & _ & Hsteps & Hw' & _).
    subst w'.
    destruct (steps_alone _ _ _ Halone Hsteps)
      as (H1 & H2 & H3 & H4 & H5 & H6).
    revert H1 H2 H3 H4 H5 H6. world_fields. intros H1 H2 H3 H4 H5 H6.
    repeat split; auto.
    rewrite H5. apply wrap_increment_decrement, Hw.
  - intros res w' Hrun.
    destruct (recvfrom_events _ _ _ _ _ _ _ _ Hrun)
      as (w1 & evs & _ & Hsteps & Hw' & _).
    subst w'.
    destruct (steps_alone _ _ _ Halone Hsteps)
      as (H1 & H2 & H3 & H4 & H5 & H6).
    revert H1 H2 H3 H4 H5 H6. world_fields. intros H1 H2 H3 H4 H5 H6.
    repeat split; auto.
    rewrite H4. apply wrap_increment_decrement, Hr.
Qed.


(** X15.  [sendto] with a host name.  When the resolver reports an error,
    whatever its code, the call returns [NSAPI_ERROR_DNS_FAILURE] and has
    done nothing: the lock was not taken, the stack not asked to send, no
    counter touched.  When the resolver succeeds, every transfer of the
    call sends the caller's datagram to the resolved address with the
    caller's port. *)
Theorem sendto_host_resolves_first
        (gethostbyname : list Z -> Z * option SocketAddress)
        (set_port : SocketAddress -> Z -> SocketAddress)
        (NSAPI_ERROR_DNS_FAILURE : Z)
        fuel host port data size (w : World) :
  (fst (gethostbyname host) <> 0 ->
   sendto_host env gethostbyname set_port NSAPI_ERROR_DNS_FAILURE
               fuel host port data size w
   = Some (NSAPI_ERROR_DNS_FAILURE, w)) /\
  (fst (gethostbyname host) = 0 ->
   forall r w',
     sendto_host env gethostbyname set_port NSAPI_ERROR_DNS_FAILURE
                 fuel host port data size w
     = Some (r, w') ->
     Forall (sendto_event
               (set_port (match snd (gethostbyname host) with
                          | Some a => a
                          | None => addr_default
                          end) port)
               data size)
            (events_since w w')).
Proof.
  unfold sendto_host. destruct (gethostbyname host) as [err written].
  cbn [fst snd]. split.
  - intros Herr. apply Z.eqb_neq in Herr. rewrite Herr. reflexivity.
  - intros Herr r w'. subst err. cbn [Z.eqb negb]. apply sendto_only_sends.
Qed.

(** X16.  A dropped datagram still reaches the caller's memory.  On a
    connected non-blocking socket, when the stack first delivers a
    datagram from another address and then has nothing more,
    [recvfrom] returns [NSAPI_ERROR_WOULD_BLOCK], and yet the caller's
    buffer and address object hold the dropped datagram and its source:
    the filter discards the result, not what the stack wrote. *)
Theorem recvfrom_leaves_dropped_datagram_in_buffer
        fuel dst buffer size (w : World) h a1 b1 :
  let r1 := socket_recvfrom env (calls_recvfrom w) h size in
  let r2 := socket_recvfrom env (S (calls_recvfrom w)) h size in
  _socket (sock w) = Some h ->
  _timeout (sock w) = 0 ->
  NSAPI_ERROR_WOULD_BLOCK < 0 ->
  addr_bool (_remote_peer (sock w)) = true ->
  0 <= rf_ret r1 ->
  rf_address r1 = Some a1 ->
  rf_buffer r1 = Some b1 ->
  addr_neq (_remote_peer (sock w)) a1 = true ->
  rf_ret r2 = NSAPI_ERROR_WOULD_BLOCK ->
  rf_address r2 = None ->
  rf_buffer r2 = None ->
  exists w',
    recvfrom env (S (S fuel)) dst buffer size w
    = Some ((NSAPI_ERROR_WOULD_BLOCK, a1, b1), w').
Proof.
  intros r1 r2 Hs Ht Hneg Hpeer Hn Ha Hb Hneq Hwb Ha2 Hb2.
  eexists. rewrite recvfrom_run, recvfrom_loop_step. world_fields.
  rewrite Hs. cbv zeta. fold r1. rewrite Ha, Hb.
  rewrite (geb_nonnegative _ Hn), Hpeer, Hneq. cbn [andb].
  rewrite recvfrom_loop_step. world_fields. rewrite Hs. cbv zeta.
  fold r2. rewrite Ha2, Hb2, Hwb, Ht.
  rewrite (geb_negative _ Hneg). cbn [andb Z.eqb orb]. reflexivity.
Qed.
Lemma recvfrom_loop_skips size h a b :
  NSAPI_ERROR_WOULD_BLOCK < 0 ->
  forall (k : nat) (w : World) address buffer,
    _socket (sock w) = Some h ->
    addr_bool (_remote_peer (sock w)) = true ->
    (forall i, (i < k)%nat ->
               let r := socket_recvfrom env (calls_recvfrom w + i) h size in
               0 <= rf_ret r /\
               exists a', rf_address r = Some a' /\
                          addr_neq (_remote_peer (sock w)) a' = true) ->
    (let r := socket_recvfrom env (calls_recvfrom w + k) h size in
     0 <= rf_ret r /\ rf_address r = Some a /\ rf_buffer r = Some b /\
     addr_neq (_remote_peer (sock w)) a = false) ->
    exists w1 evs,
      recvfrom_loop env (S k) address buffer size w
      = Some ((rf_ret (socket_recvfrom env (calls_recvfrom w + k) h size),
               a, b), w1) /\
      trace w1 = trace w ++ evs /\
      List.length (transfers evs) = S k /\
      waits evs = [].
Proof.
  intros Hneg.
  induction k as [|k IH]; intros w address buffer Hs Hpeer Hforeign Hlast;
    rewrite recvfrom_loop_step, Hs; cbv zeta.
  - rewrite Nat.add_0_r in *. cbv zeta in Hlast.
    destruct Hlast as (Hn & Ha & Hb & Hneq).
    rewrite Ha, Hb, Hneq, andb_false_r.
    replace (NSAPI_ERROR_WOULD_BLOCK
             =? rf_ret (socket_recvfrom env (calls_recvfrom w) h size))
      with false by (symmetry; apply Z.eqb_neq; lia).
    rewrite orb_true_r. eexists _, _. split; [reflexivity|]. split.
    + world_fields. rewrite <- !app_assoc. reflexivity.
    + split; reflexivity.
  - destruct (Hforeign 0%nat ltac:(lia)) as (Hn & a' & Ha' & Hneq').
    rewrite Nat.add_0_r in Hn, Ha'.
    rewrite Ha', (geb_nonnegative _ Hn), Hpeer, Hneq'. cbn [andb].
    destruct (IH (after_recvfrom env h size w) a'
                 (match rf_buffer (socket_recvfrom env (calls_recvfrom w) h size)
                  with Some b0 => b0 | None => buffer end))
      as (w1 & evs & Hrun & Htr & Hnt & Hw).
    + exact Hs.
    + exact Hpeer.
    + intros i Hi. world_fields.
      replace (S (calls_recvfrom w) + i)%nat
        with (calls_recvfrom w + S i)%nat by lia.
      apply Hforeign. lia.
    + world_fields.
      replace (S (calls_recvfrom w) + k)%nat
        with (calls_recvfrom w + S k)%nat by lia.
      exact Hlast.
    + revert Hrun. world_fields.
      replace (S (calls_recvfrom w) + k)%nat
        with (calls_recvfrom w + S k)%nat by lia.
      intros Hrun. eexists _, _. split; [exact Hrun|]. split.
      * rewrite Htr. world_fields. rewrite <- !app_assoc. reflexivity.
      * cbn [app]. step_transfers. step_waits. cbn [List.length].
        split; congruence.
Qed.

(** X17.  Dropped datagrams cost no waiting.  On an open socket connected
    to a peer, when the stack delivers [k] datagrams from other addresses
    and then one from the peer, [recvfrom] returns the byte count, the
    source and the bytes of that last datagram after exactly [k + 1]
    calls of the stack and without a single wait, whatever the
    timeout. *)
Theorem recvfrom_skips_foreign_datagrams_without_waiting
        (k : nat) dst buffer size (w : World) h a b :
  NSAPI_ERROR_WOULD_BLOCK < 0 ->
  _socket (sock w) = Some h ->
  addr_bool (_remote_peer (sock w)) = true ->
  (forall i, (i < k)%nat ->
             let r := socket_recvfrom env (calls_recvfrom w + i) h size in
             0 <= rf_ret r /\
             exists a', rf_address r = Some a' /\
                        addr_neq (_remote_peer (sock w)) a' = true) ->
  (let r := socket_recvfrom env (calls_recvfrom w + k) h size in
   0 <= rf_ret r /\ rf_address r = Some a /\ rf_buffer r = Some b /\
   addr_neq (_remote_peer (sock w)) a = false) ->
  exists w',
    recvfrom env (S k) dst buffer size w
    = Some ((rf_ret (socket_recvfrom env (calls_recvfrom w + k) h size),
             a, b), w') /\
    List.length (transfers (events_since w w')) = S k /\
    waits (events_since w w') = [].
Proof.
  intros Hneg Hs Hpeer Hforeign Hlast.
  destruct (recvfrom_loop_skips size h a b Hneg k (recvfrom_enter w)
              (match dst with Some a0 => a0 | None => addr_default end)
              buffer Hs Hpeer Hforeign Hlast)
    as (w1 & evs & Hloop & Htr & Hn & Hw).
  revert Hloop. world_fields. intros Hloop.
  assert (Hrun : recvfrom env (S k) dst buffer size w
                 = Some ((rf_ret (socket_recvfrom env (calls_recvfrom w + k)
                                                  h size), a, b),
                         recvfrom_leave w1)).
  { rewrite recvfrom_run, Hloop. reflexivity. }
  exists (recvfrom_leave w1). split; [exact Hrun|].
  destruct (recvfrom_events_from_loop _ _ _ _ _ _ _ Hrun)
    as (w1' & Hloop' & Hw' & Hev).
  rewrite Hloop in Hloop'. inversion Hloop'; subst w1'.
  rewrite (Hev evs Htr), Hs. cbn [is_null app]. step_transfers. step_waits.
  rewrite transfers_app, waits_app, !length_app, Hw.
  rewrite (proj1 (leave_events_quiet _ _)), (proj2 (leave_events_quiet _ _)).
  cbn [List.length app]. split; [lia | reflexivity].
Qed.
End UDPSocketMoreFacts.

(* ===================================================================== *)
(** * More on UDPSocket, on the concrete targets                          *)
(* ===================================================================== *)

Lemma busy_twice_nobody_else : nobody_else busy_twice.
Proof.
  intros n f t s. cbn [busy_twice wait_any]. unfold signal_after.
  destruct (60 <? t); reflexivity.
Qed.

Lemma always_busy_timeout_stable : timeout_stable always_busy.
Proof.
  intros n f t s. cbn [always_busy wait_any]. unfold signal_after.
  destruct (60 <? t); reflexivity.
Qed.


Lemma calls_ask_only_for_their_transfer_witness :
  (exists r w',
      sendto busy_twice 3 (9 : Z) [1; 2; 3] 3 (open_socket 0 100)
      = Some (r, w') /\
      Forall (sendto_event (N := cortex_m_rtos) 9 [1; 2; 3] 3)
             (events_since (open_socket 0 100) w')) /\
  (exists res w',
      recvfrom busy_twice 3 None [0; 0; 0] 3 (open_socket 0 100)
      = Some (res, w') /\
      Forall (recvfrom_event 3) (events_since (open_socket 0 100) w')).
Proof.
  destruct (calls_ask_only_for_their_transfer
              (N := cortex_m_rtos) busy_twice
              3 9 [1; 2; 3] None [0; 0; 0] 3 (open_socket 0 100))
    as [Hsend Hrecv].
  split.
  - do 2 eexists. split; [vm_compute; reflexivity|].
    apply (Hsend 3). vm_compute. reflexivity.
  - do 2 eexists. split; [vm_compute; reflexivity|].
    apply (Hrecv (2, 7, [104; 105])). vm_compute. reflexivity.
Defined.

(** Timeout 50 ms, flags signalled after 60 ms: the first wait expires. *)
Lemma blocking_call_would_block_only_after_failed_wait_witness :
  (exists w',
      sendto always_busy 2 (9 : Z) [1; 2; 3] 3 (open_socket 0 50)
      = Some (-3001, w') /\
      exists fls fl,
        wait_flag_words (events_since (open_socket 0 50) w') = fls ++ [fl] /\
        Z.land fl 0x80000000 <> 0) /\
  (exists src buffer' w',
      recvfrom always_busy 2 None [0; 0; 0] 3 (open_socket 0 50)
      = Some ((-3001, src, buffer'), w') /\
      exists fls fl,
        wait_flag_words (events_since (open_socket 0 50) w') = fls ++ [fl] /\
        Z.land fl 0x80000000 <> 0).
Proof.
  destruct (blocking_call_would_block_only_after_failed_wait
              (N := cortex_m_rtos) always_busy
              2 9 [1; 2; 3] None [0; 0; 0] 3 (open_socket 0 50)
              always_busy_timeout_stable
              ltac:(discriminate) ltac:(discriminate))
    as [Hsend Hrecv].
  split.
  - eexists. split; [vm_compute; reflexivity|].
    apply Hsend. vm_compute. reflexivity.
  - do 3 eexists. split; [vm_compute; reflexivity|].
    eapply Hrecv. vm_compute. reflexivity.
Defined.

(** The bare target: two busy answers, no wait, no flag, and the third
    answer is returned although the timeout is 100 ms. *)
Lemma without_rtos_no_flags_and_no_timeout_witness :
  (exists w',
      sendto busy_twice_bare 3 (9 : Z) [1; 2; 3] 3 (open_socket_bare 0 100)
      = Some (3, w') /\
      filter uses_event_flag (events_since (open_socket_bare 0 100) w') = []) /\
  (exists w',
      recvfrom busy_twice_bare 3 None [0; 0; 0] 3 (open_socket_bare 0 100)
      = Some ((2, 7, [104; 105]), w') /\
      filter uses_event_flag (events_since (open_socket_bare 0 100) w') = []).
Proof.
  destruct (without_rtos_no_flags_and_no_timeout
              (N := cortex_m_bare) busy_twice_bare
              3 9 [1; 2; 3] None [0; 0; 0] 3 (open_socket_bare 0 100)
              eq_refl)
    as [Hsend Hrecv].
  split.
  - eexists. split; [vm_compute; reflexivity|].
    apply (Hsend 3). vm_compute. reflexivity.
  - eexists. split; [vm_compute; reflexivity|].
    apply (Hrecv 2 7 [104; 105]). vm_compute. reflexivity.
Defined.

(** Busy twice: three transfers, two waits, and the third answer. *)
Lemma sendto_retries_until_stack_answers_witness :
  exists w',
    sendto busy_twice 3 (9 : Z) [1; 2; 3] 3 (open_socket 0 100)
    = Some (3, w') /\
    List.length (transfers (events_since (open_socket 0 100) w')) = 3%nat /\
    List.length (waits (events_since (open_socket 0 100) w')) = 2%nat.
Proof.
  apply (sendto_retries_until_stack_answers
           (N := cortex_m_rtos) busy_twice
           2 9 [1; 2; 3] 3 (open_socket 0 100) 1%nat).
  - reflexivity.
  - exact busy_twice_nobody_else.
  - reflexivity.
  - discriminate.
  - intros n. reflexivity.
  - intros [|[|i]] Hi; [reflexivity | reflexivity | lia].
  - discriminate.
Defined.

Lemma call_leaves_socket_as_found_witness :
  exists r w',
    sendto busy_twice 3 (9 : Z) [1; 2; 3] 3 (open_socket 0 100)
    = Some (r, w') /\
    _socket (sock w') = Some 1%nat /\
    _writers (sock w') = 0 /\
    _readers (sock w') = 0.
Proof.
  destruct (call_leaves_socket_as_found
              (N := cortex_m_rtos) busy_twice
              3 9 [1; 2; 3] None [0; 0; 0] 3 (open_socket 0 100)
              busy_twice_nobody_else
              ltac:(vm_compute; split; congruence)
              ltac:(vm_compute; split; congruence))
    as [Hsend _].
  do 2 eexists. split; [vm_compute; reflexivity|].
  destruct (Hsend 3 _ ltac:(vm_compute; reflexivity))
    as (H1 & _ & _ & H4 & H5 & _).
  split; [exact H1|]. split; [exact H5 | exact H4].
Defined.

(** An unknown host, and the known one on port 80. *)
Lemma sendto_host_resolves_first_witness :
  sendto_host busy_twice one_host port_of (-3009)
              3 [98] 80 [1; 2; 3] 3 (open_socket 0 100)
  = Some (-3009, open_socket 0 100) /\
  exists r w',
    sendto_host busy_twice one_host port_of (-3009)
                3 [97] 80 [1; 2; 3] 3 (open_socket 0 100)
    = Some (r, w') /\
    Forall (sendto_event (N := cortex_m_rtos) (port_of 9 80) [1; 2; 3] 3)
           (events_since (open_socket 0 100) w').
Proof.
  split.
  - apply (sendto_host_resolves_first
             (N := cortex_m_rtos) busy_twice one_host port_of (-3009)
             3 [98] 80 [1; 2; 3] 3 (open_socket 0 100)).
    discriminate.
  - do 2 eexists. split; [vm_compute; reflexivity|].
    apply (proj2 (sendto_host_resolves_first
                    (N := cortex_m_rtos) busy_twice one_host port_of (-3009)
                    3 [97] 80 [1; 2; 3] 3 (open_socket 0 100))
                 eq_refl 3).
    vm_compute. reflexivity.
Defined.

(** Connected to address 9, non-blocking; address 7 sends two bytes. *)
Lemma recvfrom_leaves_dropped_datagram_in_buffer_witness :
  exists w',
    recvfrom spoofed_then_nothing 2 None [0; 0] 2 (open_socket 9 0)
    = Some ((-3001, 7, [104; 105]), w').
Proof.
  apply (recvfrom_leaves_dropped_datagram_in_buffer
           (N := cortex_m_rtos) spoofed_then_nothing
           0 None [0; 0] 2 (open_socket 9 0) 1%nat 7 [104; 105]);
    try reflexivity; discriminate.
Defined.

(** Connected to address 9 with a timeout of 100 ms: the datagram of
    address 7 is skipped, the one of address 9 returned, nothing waited. *)
Lemma recvfrom_skips_foreign_datagrams_without_waiting_witness :
  exists w',
    recvfrom spoofed_then_peer 2 None [0; 0; 0] 3 (open_socket 9 100)
    = Some ((3, 9, [1; 2; 3]), w') /\
    List.length (transfers (events_since (open_socket 9 100) w')) = 2%nat /\
    waits (events_since (open_socket 9 100) w') = [].
Proof.
  apply (recvfrom_skips_foreign_datagrams_without_waiting
           (N := cortex_m_rtos) spoofed_then_peer
           1 None [0; 0; 0] 3 (open_socket 9 100) 1%nat 9 [1; 2; 3]).
  - reflexivity.
  - reflexivity.
  - reflexivity.
  - intros [|i] Hi; [|lia]. split; [discriminate|].
    exists 7. split; reflexivity.
  - repeat split. discriminate.
Defined.

(* ===================================================================== *)
(** * Properties of the TLS handshake controller                          *)
(* ===================================================================== *)


